(** * Minsky maintenance scripts: a shallow embedding and its properties

    The repository holds four independent Python scripts:

    - [tests/integration/fixtures/session-edit-file/python/simple-module.py]
      (module [Calculator] below),
    - [create_rule_files.py]   (module [RuleFiles]),
    - [process/fix_tasks_md.py] (module [FixTasks]),
    - [count_real_tools.py]    (module [CountTools]).

    Python [str] values are modelled by [string]: a sequence of characters
    with codes 0..255, on which the class [\d] of [re] is exactly [0-9].
    Text read from and written to a file is the [str] that [f.read()]
    returns and that [f.write] receives; for [tasks.md], which is read
    and written back, the translation of line endings that text mode
    does on the way is modelled too ([FixTasks.read_text],
    [FixTasks.write_text]). *)

From Stdlib Require Import ZArith Lia Ascii String.
From stdpp Require Import base option list gmap strings sorting.

(** [simpl] may unfold [+:+] on a constructor. *)
Local Arguments String.append !_ _ / : simpl nomatch.

(** ** Python [str] operations *)

Module Str.

Definition newline : ascii := ascii_of_nat 10.
Definition quote : ascii := ascii_of_nat 34.
Definition backslash : ascii := ascii_of_nat 92.
Definition carriage_return : ascii := ascii_of_nat 13.
Definition nul : ascii := ascii_of_nat 0.

(** A one-character string. *)
Definition chr (c : ascii) : string := String c "".

(** [all f s]: every character of [s] satisfies [f]. *)
Fixpoint all (f : ascii → bool) (s : string) : bool :=
  match s with
  | "" => true
  | String c s' => f c && all f s'
  end.

(** [c in s]. *)
Fixpoint mem (c : ascii) (s : string) : bool :=
  match s with
  | "" => false
  | String c' s' => Ascii.eqb c c' || mem c s'
  end.

(** [s.startswith(l)], returning what follows the prefix. *)
Fixpoint strip_prefix (l s : string) : option string :=
  match l with
  | "" => Some s
  | String a l' =>
      match s with
      | String b s' => if Ascii.eqb a b then strip_prefix l' s' else None
      | "" => None
      end
  end.

(** [s.split(sep)] for a one-character separator: never the empty list. *)
Fixpoint split (sep : ascii) (s : string) : list string :=
  match s with
  | "" => [""]
  | String c s' =>
      if Ascii.eqb c sep then "" :: split sep s'
      else match split sep s' with
           | l :: ls => String c l :: ls
           | [] => [String c ""]
           end
  end.

(** [sep.join(ls)] is [String.concat sep ls]. *)
Definition join (sep : string) (ls : list string) : string :=
  String.concat sep ls.

(** [list(s)[n:]] and [list(s)[:n]] for a natural [n]. *)
Fixpoint drop (n : nat) (s : string) : string :=
  match n, s with
  | S n', String _ s' => drop n' s'
  | _, _ => s
  end.

Fixpoint take (n : nat) (s : string) : string :=
  match n, s with
  | S n', String c s' => String c (take n' s')
  | _, _ => ""
  end.

End Str.

(** ** The fragment of [re] the scripts use

    Every pattern of the repository is a sequence of literal characters,
    single character classes, greedy repetitions of a character class
    (possibly inside a capturing group) and the end anchor. The matcher is
    a backtracking one, as [re] is: a repetition first takes as many
    characters as it can and gives them back one at a time. *)

Module Re.

Inductive item : Type :=
| Lit (s : string)
| One (cls : ascii → bool)
| Rep (cls : ascii → bool) (min : nat) (capture : bool)
| Eos.

Definition pattern := list item.

(** The result of a successful match: the captured groups, in order, and
    the text that follows the match. *)
Definition result : Type := list string * string.

(** [cls{need,}] followed by the continuation [k], which receives the
    characters taken and the rest. *)
Fixpoint rep {R : Type} (cls : ascii → bool) (need : nat)
    (k : string → string → option R) (taken s : string) : option R :=
  let stop := match need with 0 => k taken s | S _ => None end in
  match s with
  | String c s' =>
      if cls c then
        match rep cls (pred need) k (taken +:+ Str.chr c) s' with
        | Some r => Some r
        | None => stop
        end
      else stop
  | "" => stop
  end.

(** Match pattern [p] at the start of [s]. *)
Fixpoint match_here (p : pattern) (s : string) : option result :=
  match p with
  | [] => Some ([], s)
  | Lit l :: p' =>
      match Str.strip_prefix l s with
      | Some s' => match_here p' s'
      | None => None
      end
  | One cls :: p' =>
      match s with
      | String c s' => if cls c then match_here p' s' else None
      | "" => None
      end
  | Rep cls min capture :: p' =>
      rep cls min
        (λ taken rest,
           match match_here p' rest with
           | Some (gs, r) => Some (if capture then taken :: gs else gs, r)
           | None => None
           end) "" s
  | Eos :: p' =>
      match s with
      | "" => match_here p' s
      | String _ _ => None
      end
  end.

(** [re.match(p, s)]: a match at position 0. *)
Definition re_match (p : pattern) (s : string) : option result :=
  match_here p s.

(** [re.search(p, s)]: the match at the leftmost position that has one. *)
Fixpoint search (p : pattern) (s : string) : option result :=
  match match_here p s with
  | Some m => Some m
  | None =>
      match s with
      | String _ s' => search p s'
      | "" => None
      end
  end.

(** [m.group(i)] for [i >= 1]. *)
Definition group (i : nat) (m : result) : string := nth (pred i) (fst m) "".

(** The scan of [re.sub]: [skip] counts the characters of the current
    match that are still to be passed over. Matches are taken left to
    right and do not overlap; an empty match is replaced and the
    character after it is kept. *)
Fixpoint sub_go (p : pattern) (repl : string) (skip : nat) (s : string)
    {struct s} : string :=
  match s with
  | "" =>
      match skip, match_here p "" with
      | 0, Some _ => repl
      | _, _ => ""
      end
  | String c s' =>
      match skip with
      | S k => sub_go p repl k s'
      | 0 =>
          match match_here p s with
          | Some (_, rest) =>
              match String.length s - String.length rest with
              | 0 => repl +:+ String c (sub_go p repl 0 s')
              | S n => repl +:+ sub_go p repl n s'
              end
          | None => String c (sub_go p repl 0 s')
          end
      end
  end.

(** A replacement string without a backslash stands for itself. One with
    a backslash goes through the escape processing of [re]: [\n], [\t]
    and the like become the characters they name, [\g<0>] and digits
    become group references or character codes, and an unknown escape
    raises [re.error]. Those runs are outside this model, and [None]
    stands for them: it says neither that [re.sub] fails nor what it
    returns. The properties below that speak of the result of a
    replacement state that the replacement holds no backslash. *)
Definition expand_template (repl : string) : option string :=
  if Str.mem Str.backslash repl then None else Some repl.

(** [re.sub(p, repl, s)]. *)
Definition sub (p : pattern) (repl s : string) : option string :=
  match expand_template repl with
  | Some lit => Some (sub_go p lit 0 s)
  | None => None
  end.

(** What a pattern denotes: [matches p s gs rest] when [p] matches a
    prefix of [s] that is followed by [rest], capturing [gs]. *)
Inductive matches : pattern → string → list string → string → Prop :=
| matches_nil s : matches [] s [] s
| matches_lit l p s gs rest :
    matches p s gs rest → matches (Lit l :: p) (l +:+ s) gs rest
| matches_one cls p c s gs rest :
    cls c = true → matches p s gs rest →
    matches (One cls :: p) (String c s) gs rest
| matches_rep cls min capture p x s gs rest :
    Str.all cls x = true → min ≤ String.length x →
    matches p s gs rest →
    matches (Rep cls min capture :: p) (x +:+ s)
      (if capture then x :: gs else gs) rest
| matches_eos p gs rest :
    matches p "" gs rest → matches (Eos :: p) "" gs rest.

End Re.

(** ** The edit-operation fixture: [class Calculator] *)

Module Calculator.

(** The class has no fields; its methods take [self] and two integers.
    Python integers are unbounded: [Z]. *)
Record Calculator : Type := Build {}.

Definition add (self : Calculator) (a b : Z) : Z := (a + b)%Z.

Definition subtract (self : Calculator) (a b : Z) : Z := (a - b)%Z.

End Calculator.

(** ** [process/fix_tasks_md.py]: the task-index path repairer *)

Module FixTasks.

(** [\d] and [[0-9]]. *)
Definition is_digit (c : ascii) : bool :=
  let n := nat_of_ascii c in (48 <=? n)%nat && (n <=? 57)%nat.

(** [[^)]]. *)
Definition not_rparen (c : ascii) : bool := negb (Ascii.eqb c ")"%char).

(** [.] under the flag [(?s)]. *)
Definition any_char (c : ascii) : bool := true.

(** [fnmatch.translate('[0-9]*.md')] is [(?s:[0-9].*\.md)\Z]. *)
Definition glob_pattern : Re.pattern :=
  [Re.One is_digit; Re.Rep any_char 0 false; Re.Lit ".md"; Re.Eos].

Definition fnmatch (name : string) : bool :=
  match Re.re_match glob_pattern name with
  | Some _ => true
  | None => false
  end.

(** [glob.glob('tasks/[0-9]*.md')], given the names of the entries of the
    directory [tasks] in the order the operating system lists them. *)
Definition glob (dir : list string) : list string :=
  map (λ name, "tasks/" +:+ name) (List.filter fnmatch dir).

(** [sorted]: strings are ordered character by character. *)
Definition sorted (l : list string) : list string := merge_sort String.le l.

(** [os.path.basename]: what follows the last slash. *)
Definition basename (p : string) : string := List.last (Str.split "/"%char p) "".

(** [r'^(\d+)-'], used with [re.match], which anchors it at position 0. *)
Definition task_pattern : Re.pattern :=
  [Re.Rep is_digit 1 true; Re.Lit "-"].

(** One turn of the loop that fills [task_files]. *)
Definition add_task_file (task_files : gmap string string) (filepath : string)
    : gmap string string :=
  let filename := basename filepath in
  match Re.re_match task_pattern filename with
  | Some task_num => <[Re.group 1 task_num := filepath]> task_files
  | None => task_files
  end.

Definition task_files (dir : list string) : gmap string string :=
  foldl add_task_file ∅ (sorted (glob dir)).

(** [r'\[#(\d+)\]\(process/tasks/[^)]+\.md\)']. *)
Definition ref_pattern : Re.pattern :=
  [Re.Lit "[#"; Re.Rep is_digit 1 true; Re.Lit "](process/tasks/";
   Re.Rep not_rparen 1 false; Re.Lit ".md)"].

(** [r'\[#' + task_num + r'\]\(process/tasks/[^)]+\.md\)']: [task_num] is
    a run of digits, which a pattern reads as literal characters. *)
Definition sub_pattern (task_num : string) : Re.pattern :=
  [Re.Lit "[#"; Re.Lit task_num; Re.Lit "](process/tasks/";
   Re.Rep not_rparen 1 false; Re.Lit ".md)"].

(** The body of the loop over the lines. *)
Definition fix_line (task_files : gmap string string) (line : string)
    : option string :=
  match Re.search ref_pattern line with
  | Some match_ =>
      let task_num := Re.group 1 match_ in
      match task_files !! task_num with
      | Some path =>
          let correct_path := "process/" +:+ path in
          Re.sub (sub_pattern task_num)
            ("[#" +:+ task_num +:+ "](" +:+ correct_path +:+ ")") line
      | None => Some line
      end
  | None => Some line
  end.

Definition fixed_lines (task_files : gmap string string) (lines : list string)
    : option (list string) :=
  mapM (fix_line task_files) lines.

(** The script: [content] is the text of [tasks.md], [dir] the names of
    the entries of [tasks/]. The result is the text written back to
    [tasks.md] and the line printed; it is [None] only when a replacement
    string holds a backslash (see [Re.expand_template]). *)
Definition main (dir : list string) (content : string)
    : option (string * list string) :=
  let lines := Str.split Str.newline content in
  match fixed_lines (task_files dir) lines with
  | Some fixed =>
      Some (Str.join (Str.chr Str.newline) fixed,
            ["Fixed all file paths in tasks.md"])
  | None => None
  end.

(** *** [tasks.md] as a file

    The script opens [tasks.md] in text mode, with the default
    [newline=None]. A file is given by its characters, as the codec
    decodes them and encodes them back; what text mode adds is the
    translation of line endings. *)

(** [f.read()] on [open('tasks.md', 'r')], universal newlines: a carriage
    return, together with the line feed that follows it if there is one,
    is read as one newline. [after_cr] tells that the character before
    was a carriage return. *)
Fixpoint read_text_from (after_cr : bool) (file : string) : string :=
  match file with
  | "" => ""
  | String c file' =>
      if Ascii.eqb c Str.carriage_return then
        String Str.newline (read_text_from true file')
      else if Ascii.eqb c Str.newline then
        if after_cr then read_text_from false file'
        else String Str.newline (read_text_from false file')
      else String c (read_text_from false file')
  end.

Definition read_text (file : string) : string := read_text_from false file.

(** [f.write(text)] on [open('tasks.md', 'w')]: each newline is written
    as [linesep], the [os.linesep] of the platform. *)
Fixpoint write_text (linesep text : string) : string :=
  match text with
  | "" => ""
  | String c text' =>
      (if Ascii.eqb c Str.newline then linesep else Str.chr c)
      +:+ write_text linesep text'
  end.

(** [os.linesep] on POSIX. *)
Definition posix_linesep : string := Str.chr Str.newline.

(** The script from file to file: [file] is what [tasks.md] holds before
    the run, the result what it holds after it, with the line printed. *)
Definition script (linesep : string) (dir : list string) (file : string)
    : option (string * list string) :=
  match main dir (read_text file) with
  | Some (written, printed) => Some (write_text linesep written, printed)
  | None => None
  end.

(** *** Notions used to state the properties of the repairer *)

(** The text of a reference to task [N] whose path is
    [process/tasks/X.md]. *)
Definition reference (N X : string) : string :=
  "[#" +:+ N +:+ "](process/tasks/" +:+ X +:+ ".md)".

(** [N] is a task number and [X] the stem of a path, as [ref_pattern]
    reads them. *)
Definition well_formed (N X : string) : Prop :=
  N ≠ "" ∧ Str.all is_digit N = true ∧ X ≠ "" ∧ Str.all not_rparen X = true.

(** A reference to task [N] starts at offset [String.length pre]. *)
Definition reference_at (line pre N : string) : Prop :=
  ∃ X post, line = pre +:+ reference N X +:+ post ∧ well_formed N X.

(** The leftmost reference of [line] is to task [N], at offset
    [String.length pre]. *)
Definition leftmost_reference (line pre N : string) : Prop :=
  reference_at line pre N ∧
  ∀ pre' N', reference_at line pre' N' →
             String.length pre ≤ String.length pre'.

(** [rewritten N new line out]: [out] is [line] with its references to
    task [N], taken from left to right, each replaced by [new], and
    nothing else changed. *)
Inductive rewritten (N new : string) : string → string → Prop :=
| rewritten_done s :
    (∀ pre, ¬ reference_at s pre N) → rewritten N new s s
| rewritten_step pre X post out :
    well_formed N X →
    (∀ pre', reference_at (pre +:+ reference N X +:+ post) pre' N →
             String.length pre ≤ String.length pre') →
    rewritten N new post out →
    rewritten N new (pre +:+ reference N X +:+ post) (pre +:+ new +:+ out).

(** [name] is the name of a task file numbered [N]: digits, a hyphen,
    and an end in [.md]. *)
Definition task_file (name N : string) : Prop :=
  ∃ tail, name = N +:+ "-" +:+ tail +:+ ".md" ∧
          N ≠ "" ∧ Str.all is_digit N = true.

(** Entries of a directory are names: they hold no slash. *)
Definition entry_name (name : string) : Prop := Str.mem "/" name = false.

(** The link that replaces a reference to task [N] whose file is
    [path]. *)
Definition repaired (N path : string) : string :=
  "[#" +:+ N +:+ "](process/" +:+ path +:+ ")".

(** The key under which the loop files [filepath], if any. *)
Definition key (filepath : string) : option string :=
  match Re.re_match task_pattern (basename filepath) with
  | Some task_num => Some (Re.group 1 task_num)
  | None => None
  end.

(** Every position of [s] where [ref_pattern] matches, with the task
    number it captures there; [i] is the offset of [s] in the line. *)
Fixpoint references_from (i : nat) (s : string) : list (nat * string) :=
  match Re.match_here ref_pattern s with
  | Some m => [(i, Re.group 1 m)]
  | None => []
  end ++
  match s with
  | "" => []
  | String _ s' => references_from (S i) s'
  end.

Definition references (line : string) : list (nat * string) :=
  references_from 0 line.

(** A carriage return and a line feed: the line ending of DOS. *)
Definition crlf : string :=
  Str.chr Str.carriage_return +:+ Str.chr Str.newline.

(** A [tasks.md] with DOS line endings, whose one reference is to a task
    without a file, and the same with POSIX line endings. *)
Definition crlf_file : string :=
  "# Tasks" +:+ crlf +:+
  "- [ ] Later [#042](process/tasks/042-later.md)" +:+ crlf.

Definition lf_file : string :=
  "# Tasks" +:+ Str.chr Str.newline +:+
  "- [ ] Later [#042](process/tasks/042-later.md)" +:+ Str.chr Str.newline.

(** The line of the specification's example, and its repair. *)
Definition example_line : string :=
  "- [#007](process/tasks/foo.md) Some title".

Definition example_repaired : string :=
  "- [#007](process/tasks/007-bar.md) Some title".

(** [s] holds no [[#], the two characters a reference starts with. *)
Definition no_reference_start (s : string) : Prop :=
  ∀ a b, s ≠ a +:+ "[#" +:+ b.

End FixTasks.

(** ** [create_rule_files.py]: the rule-file generator

    A file holds the text written to it; a literal with characters beyond
    ASCII stands for its UTF-8 encoding, the bytes of the source file. *)

Module RuleFiles.

(** The directories and the regular files of the file system, each
    under the path the script names it by: a path relative to the working
    directory, without [.], [..] or doubled slashes. Writes succeed: the
    failures of the operating system (no permission, a full disk) are
    outside the model. *)
Record fs : Type := { dirs : gset string; files : gmap string string }.

(** The file system and what was printed so far. *)
Record state : Type := { disk : fs; stdout : list string }.

(** [os.path.exists]. *)
Definition path_exists (d : fs) (p : string) : bool :=
  bool_decide (p ∈ dirs d) || bool_decide (is_Some (files d !! p)).

(** The proper prefixes of [p] that end before a slash: the directories
    that lead to [p]. [acc] is the part of the path already read. *)
Fixpoint leading (acc p : string) : list string :=
  match p with
  | "" => []
  | String c p' =>
      (if Ascii.eqb c "/" && negb (String.eqb acc "") then [acc] else [])
      ++ leading (acc +:+ Str.chr c) p'
  end.

(** [os.makedirs(p)]: [p] and every directory that leads to it. *)
Definition makedirs (d : fs) (p : string) : fs :=
  {| dirs := dirs d ∪ list_to_set (leading "" p) ∪ {[p]};
     files := files d |}.

(** [with open(path, 'w') as f: f.write(text)] when [open] succeeds: the
    file is created or truncated, then holds [text]. Where [open] raises
    (the directory of [path] is missing or is a regular file, or [path]
    is a directory) nothing is written and the script ends; [writable]
    below is the condition under which it does not. *)
Definition write_file (d : fs) (path text : string) : fs :=
  {| dirs := dirs d; files := <[path := text]> (files d) |}.

Definition print (line : string) (st : state) : state :=
  {| disk := disk st; stdout := stdout st ++ [line] |}.

(** The double quote, which a literal of this file cannot hold. *)
Definition dq : string := Str.chr Str.quote.

Definition nl : string := Str.chr Str.newline.

(** The f-string [frontmatter] of [create_rule_file]. *)
Definition frontmatter (name description : string) : string :=
  "---
name: " +:+ name +:+ "
description: " +:+ description +:+ "
globs:
  - " +:+ dq +:+ "**/*" +:+ dq +:+ "
alwaysApply: false
---
".

Definition create_rule_file (file_path name description content : string)
    (st : state) : state :=
  print ("Created " +:+ file_path)
    {| disk := write_file (disk st) file_path
                 (frontmatter name description +:+ content);
       stdout := stdout st |}.

Definition rules_dir : string := ".cursor/rules".

(** [os.path.join(a, b)] on POSIX. *)
Definition path_join (a b : string) : string :=
  match b with
  | String "/" _ => b
  | _ =>
      match Str.take 1 (Str.drop (String.length a - 1) a) with
      | "" | "/" => a +:+ b
      | _ => a +:+ "/" +:+ b
      end
  end.
(** The body of rule 1. *)
Definition orchestrator_body : string :=
  "# Minsky Workflow System

This rule provides an overview of the Minsky workflow system and serves as an entry point to the more detailed workflow rules. The Minsky workflow has been divided into focused rules to make it easier to understand and follow.

## Core Workflow Rules

The following rules form the complete Minsky workflow system:

1. [**minsky-cli-usage**](mdc:.cursor/rules/minsky-cli-usage.mdc) - Guidelines for using the Minsky CLI for all task and session operations
2. [**minsky-session-management**](mdc:.cursor/rules/minsky-session-management.mdc) - Procedures for creating and managing sessions
3. [**task-implementation-workflow**](mdc:.cursor/rules/task-implementation-workflow.mdc) - Step-by-step process for implementing tasks
4. [**task-status-protocol**](mdc:.cursor/rules/task-status-protocol.mdc) - Procedures for checking and updating task status
5. [**pr-preparation-workflow**](mdc:.cursor/rules/pr-preparation-workflow.mdc) - Guidelines for preparing and submitting PRs

## Fundamental Principle: CLI-Based Workflow

**CRITICAL REQUIREMENT**: ALL task and session management MUST be done through the Minsky CLI, not through direct file system operations. This includes:

- Task listing, status checking, and status updates
- Session creation, navigation, and management
- Task implementation and verification
- PR preparation and submission

## When to Apply These Rules

These workflow rules should be applied:

- When starting work on a new task
- When checking or updating task status
- When creating or managing sessions
- When implementing task requirements
- When preparing pull requests

## Supporting Rules

The Minsky workflow is supported by these additional rules:

- [**session-first-workflow**](mdc:.cursor/rules/session-first-workflow.mdc) - Ensures all implementation work happens in dedicated sessions
- [**creating-tasks**](mdc:.cursor/rules/creating-tasks.mdc) - Guidelines for creating well-structured task specifications
- [**pr-description-guidelines**](mdc:.cursor/rules/pr-description-guidelines.mdc) - Format and content requirements for PR descriptions
- [**rules-management**](mdc:.cursor/rules/rules-management.mdc) - Guidelines for managing Minsky rules
".
(** The body of rule 2. *)
Definition cli_usage_body : string :=
  "# Minsky CLI Usage Protocol

⛔️ **CRITICAL: ALL TASK AND SESSION OPERATIONS MUST USE THE MINSKY CLI**

## Core Principles

1. **Always Use Minsky CLI for Task/Session Data**
   - NEVER use file listings or static documentation for task/session data
   - NEVER directly manipulate Minsky's state files or databases
   - NEVER delete or modify files in `~/.local/state/minsky/`
   - NEVER read or write to `session-db.json` directly - this is STRICTLY FORBIDDEN
   - ALWAYS use appropriate minsky commands (see Command Reference section below)

2. **Use Official Global Installation**
   - Use the globally installed `minsky` CLI (available on your PATH, typically via `bun link`)
   - **Do NOT use `bun run ...` for task/session operations**
   - Only use `bun run ...` or direct script execution when developing or testing the Minsky CLI itself

3. **Data Integrity is Critical**
   - Minsky maintains critical state in `~/.local/state/minsky/`
   - Direct manipulation of these files will corrupt the system
   - NEVER attempt to " +:+ dq +:+
  "fix" +:+ dq +:+
  " issues by deleting state files
   - Deleting state files is STRICTLY FORBIDDEN as it:
     - Corrupts Minsky's understanding of tasks and sessions
     - Makes session management impossible
     - May lead to lost work or inconsistent state
     - Violates the core principle of CLI-based management
".
(** The body of rule 3. *)
Definition session_management_body : string :=
  "# Minsky Session Management Protocol

**NO IMPLEMENTATION WORK CAN BEGIN WITHOUT AN ACTIVE SESSION**

This rule defines the procedures for creating, navigating, and managing Minsky sessions, which provide isolated workspaces for task implementation.

## What is a Minsky Session?

A Minsky session is an isolated workspace for implementing a specific task. It ensures:

1. **Isolation**: Changes are isolated from the main workspace until they're ready for review
2. **Traceability**: Each session is associated with a specific task
3. **Reproducibility**: Sessions can be recreated or updated as needed
".
(** The body of rule 4. *)
Definition task_implementation_body : string :=
  "# Task Implementation Workflow

This rule provides a detailed, step-by-step process for implementing tasks in the Minsky workflow.

## Task Implementation Lifecycle

### 1. Task Selection

1. **List available tasks**:
   ```bash
   minsky tasks list --json
   ```

2. **View task details**:
   ```bash
   minsky tasks get <task-id>
   ```

3. **Check the current status**:
   ```bash
   minsky tasks status get <task-id>
   ```
".
(** The body of rule 5. *)
Definition task_status_body : string :=
  "# Task Status Protocol

This rule defines the standard protocol for checking, updating, and verifying task status within the Minsky system.

## Task Status Lifecycle

Tasks in the Minsky system progress through the following statuses:

- `TODO`: Not started, available to work on
- `IN-PROGRESS`: Work has begun but is not complete
- `IN-REVIEW`: Work is complete and awaiting review
- `DONE`: Work is complete, reviewed, and merged
".
(** The body of rule 6. *)
Definition pr_preparation_body : string :=
  "# PR Preparation Workflow

This rule provides guidelines for preparing and submitting pull requests (PRs) in the Minsky workflow.

## PR Creation Process

### 1. Verify Implementation Completeness

Before creating a PR, ensure:

1. **All requirements are implemented**: Check the task specification to confirm all requirements are met
2. **All tests pass**: Run the test suite to ensure all tests pass
3. **Code quality is acceptable**: Check for any linting issues or code smells
4. **Documentation is updated**: Ensure task documentation and changelog are updated
".
(** The script. *)
Definition main (st : state) : state :=
  let st :=
    if path_exists (disk st) rules_dir then st
    else {| disk := makedirs (disk st) rules_dir; stdout := stdout st |} in
  let st :=
    create_rule_file (path_join rules_dir "minsky-workflow-orchestrator.mdc")
      "Minsky Workflow Orchestrator"
      "Overview of the Minsky workflow system and entry point to focused workflow rules"
      orchestrator_body st in
  let st :=
    create_rule_file (path_join rules_dir "minsky-cli-usage.mdc")
      "Minsky CLI Usage Protocol"
      "REQUIRED protocol for using the Minsky CLI for all task and session operations"
      cli_usage_body st in
  let st :=
    create_rule_file (path_join rules_dir "minsky-session-management.mdc")
      "Minsky Session Management Protocol"
      "REQUIRED protocol for starting, re-entering, and managing Minsky sessions"
      session_management_body st in
  let st :=
    create_rule_file (path_join rules_dir "task-implementation-workflow.mdc")
      "Task Implementation Workflow"
      "REQUIRED workflow for implementing tasks from start to completion"
      task_implementation_body st in
  let st :=
    create_rule_file (path_join rules_dir "task-status-protocol.mdc")
      "Task Status Protocol"
      "REQUIRED protocol for checking, updating, and verifying task status"
      task_status_body st in
  let st :=
    create_rule_file (path_join rules_dir "pr-preparation-workflow.mdc")
      "PR Preparation Workflow"
      "REQUIRED workflow for preparing and submitting pull requests"
      pr_preparation_body st in
  print "All rule files created successfully with proper frontmatter." st.

(** *** Notions used to state the properties of the generator *)

(** The arguments of the six calls: file name, name, description, body. *)
Definition rules : list (string * string * string * string) :=
  [("minsky-workflow-orchestrator.mdc",
    "Minsky Workflow Orchestrator",
    "Overview of the Minsky workflow system and entry point to focused workflow rules",
    orchestrator_body);
   ("minsky-cli-usage.mdc",
    "Minsky CLI Usage Protocol",
    "REQUIRED protocol for using the Minsky CLI for all task and session operations",
    cli_usage_body);
   ("minsky-session-management.mdc",
    "Minsky Session Management Protocol",
    "REQUIRED protocol for starting, re-entering, and managing Minsky sessions",
    session_management_body);
   ("task-implementation-workflow.mdc",
    "Task Implementation Workflow",
    "REQUIRED workflow for implementing tasks from start to completion",
    task_implementation_body);
   ("task-status-protocol.mdc",
    "Task Status Protocol",
    "REQUIRED protocol for checking, updating, and verifying task status",
    task_status_body);
   ("pr-preparation-workflow.mdc",
    "PR Preparation Workflow",
    "REQUIRED workflow for preparing and submitting pull requests",
    pr_preparation_body)].

(** The path and the text of the file a call writes. *)
Definition rule_path (r : string * string * string * string) : string :=
  path_join rules_dir r.1.1.1.

Definition rule_file (r : string * string * string * string) : string :=
  frontmatter r.1.1.2 r.1.2 +:+ r.2.

(** The paths the six calls write to. *)
Definition rule_paths : list string := map rule_path rules.

(** The text the generator leaves at path [p], if it writes there: that
    of the last call on [p]. *)
Definition rule_text (p : string) : option string :=
  foldl (λ found r,
           if String.eqb (rule_path r) p then Some (rule_file r) else found)
        None rules.

(** A reader of the file format: a first line [---], the four fields on
    a line each, a line [---], and the body from the next line on. It
    returns the name, the description and the body. *)
Definition parse_rule_file (text : string) : option (string * string * string) :=
  match Str.split Str.newline text with
  | l0 :: l1 :: l2 :: l3 :: l4 :: l5 :: l6 :: body =>
      if String.eqb l0 "---" && String.eqb l3 "globs:"
         && String.eqb l4 ("  - " +:+ dq +:+ "**/*" +:+ dq)
         && String.eqb l5 "alwaysApply: false" && String.eqb l6 "---"
      then
        match Str.strip_prefix "name: " l1,
              Str.strip_prefix "description: " l2 with
        | Some name, Some description =>
            Some (name, description, Str.join nl body)
        | _, _ => None
        end
      else None
  | _ => None
  end.

(** A segment of a path that names an entry: not empty, not [.] or [..],
    without a NUL character. *)
Definition entry_segment (s : string) : bool :=
  negb (String.eqb s "") && negb (String.eqb s ".")
  && negb (String.eqb s "..") && negb (Str.mem Str.nul s).

(** The directory of a path: what precedes its last slash. *)
Definition dirname (p : string) : string :=
  Str.join "/" (removelast (Str.split "/" p)).

(** [open(p, 'w')] succeeds on [d]: every segment of [p] names an entry,
    the directory of [p] is the working directory or a directory of [d],
    and [p] itself is not a directory. *)
Definition writable (d : fs) (p : string) : bool :=
  forallb entry_segment (Str.split "/" p)
  && (String.eqb (dirname p) "" || bool_decide (dirname p ∈ dirs d))
  && negb (bool_decide (p ∈ dirs d)).

(** The first line of a text is not blank. *)
Definition starts_with_text (body : string) : Prop :=
  match body with
  | "" => False
  | String c _ => c ≠ Str.newline
  end.

End RuleFiles.

(** ** [count_real_tools.py]: the tool-manifest comparator *)

Module CountTools.

(** The exceptions the script can meet; each is a subclass of
    [Exception], which is what [except Exception] catches. *)
Inductive exn : Type :=
| OSError (msg : string)
| UnicodeDecodeError (msg : string)
| JSONDecodeError (msg : string)
| RecursionError (msg : string)
| TypeError (msg : string)
| AttributeError (msg : string)
| NameError (msg : string).

(** What [open(...)] followed by [f.read()] gives. *)
Inductive read_result : Type :=
| ReadOk (text : string)
| ReadError (e : exn).

(** The Python values [json.loads] builds. A [dict] is the list of its
    items, in insertion order. *)
Local Unset Elimination Schemes.

Inductive value : Type :=
| Dict (items : list (string * value))
| List (items : list value)
| Str (s : string)
| Int (n : Z)
| Float (repr : string)
| Bool (b : bool)
| NoneValue.

Local Set Elimination Schemes.

(** One call of [print]. *)
Inductive output : Type :=
| CursorTools (n : nat)
| OurTools (n : nat)
| FirstTen (keys : list string)
| FailedCursor (e : exn)
| FailedOurs (e : exn)
| NoJsonStart.

(** How the script ends. *)
Inductive outcome : Type :=
| Finished
| Uncaught (e : exn).

(** [type(v).__name__]. *)
Definition type_name (v : value) : string :=
  match v with
  | Dict _ => "dict"
  | List _ => "list"
  | Str _ => "str"
  | Int _ => "int"
  | Float _ => "float"
  | Bool _ => "bool"
  | NoneValue => "NoneType"
  end.

(** [len(v)]. *)
Definition len (v : value) : exn + nat :=
  match v with
  | Dict items => inr (length items)
  | List items => inr (length items)
  | Str s => inr (String.length s)
  | _ =>
      inl (TypeError ("object of type '" +:+ type_name v +:+ "' has no len()"))
  end.

(** [list(v.keys())]. *)
Definition keys (v : value) : exn + list string :=
  match v with
  | Dict items => inr (map fst items)
  | _ =>
      inl (AttributeError
             ("'" +:+ type_name v +:+ "' object has no attribute 'keys'"))
  end.

(** The first index [j >= i] at which [sub] occurs, [i] being the index
    of the start of [s]. *)
Fixpoint find_at (sub s : string) (i : nat) : option nat :=
  match Str.strip_prefix sub s with
  | Some _ => Some i
  | None =>
      match s with
      | String _ s' => find_at sub s' (S i)
      | "" => None
      end
  end.

(** [s.find(sub, start)]. *)
Definition find (s sub : string) (start : Z) : Z :=
  let n := Z.of_nat (String.length s) in
  let start := if (start <? 0)%Z then Z.max 0 (start + n) else start in
  if (n <? start)%Z then (-1)%Z
  else
    match find_at sub (Str.drop (Z.to_nat start) s) (Z.to_nat start) with
    | Some i => Z.of_nat i
    | None => (-1)%Z
    end.

(** An index of a slice, brought into [0..n]. *)
Definition clamp (n i : Z) : Z :=
  if (i <? 0)%Z then Z.max 0 (i + n) else Z.min i n.

(** [s[a:b]]. *)
Definition slice (s : string) (a b : Z) : string :=
  let n := Z.of_nat (String.length s) in
  let a := clamp n a in
  let b := clamp n b in
  Str.take (Z.to_nat (b - a)) (Str.drop (Z.to_nat a) s).

(** [s[a:]]. *)
Definition slice_from (s : string) (a : Z) : string :=
  slice s a (Z.of_nat (String.length s)).

Definition dq : string := Str.chr Str.quote.

Definition nl : string := Str.chr Str.newline.

(** The markers: a fence that opens a JSON block on an object, a fence
    that closes it, and an opening brace, a newline, two spaces and a
    double quote. *)
Definition fence_open : string := "```json" +:+ nl +:+ "{".

Definition fence_close : string := nl +:+ "```".

Definition object_open : string := "{" +:+ nl +:+ "  " +:+ dq.

(** Lines 9 to 11: the text between the markers. *)
Definition cursor_json_str (cursor_content : string) : string :=
  let json_start := find cursor_content fence_open 0 in
  let json_end := find cursor_content fence_close json_start in
  slice cursor_content (json_start + 8) json_end.

(** The loop of lines 34 to 41: the index, counted from [i], at which
    [brace_count] comes back to 0. *)
Fixpoint scan (brace_count : Z) (i : nat) (s : string) : option nat :=
  match s with
  | "" => None
  | String char s' =>
      if Ascii.eqb char "{" then scan (brace_count + 1) (S i) s'
      else if Ascii.eqb char "}" then
        let brace_count := (brace_count - 1)%Z in
        if (brace_count =? 0)%Z then Some i else scan brace_count (S i) s'
      else scan brace_count (S i) s'
  end.

(** Lines 27 to 41: [our_json_str] when the loop assigns it. *)
Definition our_json_str (our_content : string) (json_start : Z)
    : option string :=
  match scan 0 0 (slice_from our_content json_start) with
  | Some i => Some (slice our_content json_start (json_start + Z.of_nat i + 1))
  | None => None
  end.

Section Comparator.

(** [json.loads], of the standard library. *)
Variable json_loads : string → exn + value.

(** Lines 14 to 19. *)
Definition report_cursor (cursor_json_str : string) : list output :=
  match json_loads cursor_json_str with
  | inl e => [FailedCursor e]
  | inr cursor_tools =>
      match len cursor_tools with
      | inl e => [FailedCursor e]
      | inr n =>
          CursorTools n ::
          match keys cursor_tools with
          | inl e => [FailedCursor e]
          | inr ks => [FirstTen (take 10 ks)]
          end
      end
  end.

(** Lines 22 to 48. *)
Definition report_ours (our_file : read_result) : list output :=
  match our_file with
  | ReadError e => [FailedOurs e]
  | ReadOk our_content =>
      let json_start := find our_content object_open 0 in
      if (json_start =? -1)%Z then [NoJsonStart]
      else
        match our_json_str our_content json_start with
        | None =>
            [FailedOurs (NameError "name 'our_json_str' is not defined")]
        | Some s =>
            match json_loads s with
            | inl e => [FailedOurs e]
            | inr our_tools =>
                match len our_tools with
                | inl e => [FailedOurs e]
                | inr n =>
                    OurTools n ::
                    match keys our_tools with
                    | inl e => [FailedOurs e]
                    | inr ks => [FirstTen (take 10 ks)]
                    end
                end
            end
        end
  end.

(** The script: what it prints and how it ends. The first file is opened
    outside any [try]. *)
Definition main (cursor_file our_file : read_result)
    : list output * outcome :=
  match cursor_file with
  | ReadError e => ([], Uncaught e)
  | ReadOk cursor_content =>
      (report_cursor (cursor_json_str cursor_content)
       ++ report_ours our_file, Finished)
  end.

End Comparator.

(** *** Notions used to state the properties of the comparator *)

(** The report of a catalog with the given items: the number of keys and
    the first ten of them. *)
Definition catalog_report (count : nat → output)
    (items : list (string * value)) : list output :=
  [count (length items); FirstTen (take 10 (map fst items))].

(** [doc] holds the text [J] between a line [```json] and a line that
    starts with [```]. *)
Definition fenced (doc J : string) : Prop :=
  ∃ pre post, doc = pre +:+ "```json" +:+ nl +:+ J +:+ fence_close +:+ post.

(** [sub] occurs in [s] at offset [String.length pre], and nowhere
    before. *)
Definition first_at (sub s pre : string) : Prop :=
  (∃ post, s = pre +:+ sub +:+ post) ∧
  ∀ pre' post', s = pre' +:+ sub +:+ post' →
                String.length pre ≤ String.length pre'.

(** Opening braces minus closing braces. *)
Fixpoint brace_depth (s : string) : Z :=
  match s with
  | "" => 0
  | String c s' =>
      ((if Ascii.eqb c "{" then 1 else if Ascii.eqb c "}" then -1 else 0)
       + brace_depth s')%Z
  end.

(** [J] ends at the brace that closes its first one, every brace
    character counted. *)
Definition closes_at_end (J : string) : Prop :=
  brace_depth J = 0%Z ∧
  ∀ a b, J = a +:+ b → a ≠ "" → b ≠ "" → (0 < brace_depth a)%Z.

(** A check, by evaluation, of the second half of [closes_at_end]: with
    [c] braces open before [s], every proper prefix of [s] leaves a brace
    open. *)
Fixpoint prefixes_open (c : Z) (s : string) : bool :=
  match s with
  | "" => true
  | String ch s' =>
      match s' with
      | "" => true
      | String _ _ =>
          (0 <? c + brace_depth (Str.chr ch))%Z
          && prefixes_open (c + brace_depth (Str.chr ch)) s'
      end
  end.

(** A catalog of one tool, as [JSON.stringify(…, null, 2)] prints it. *)
Definition sample_object : string :=
  object_open +:+ "read_file" +:+ dq +:+ ": {}" +:+ nl +:+ "}".

(** A stand-in for [json.loads] on the texts used as examples below: the
    empty object, [sample_object], and texts that are not JSON. *)
Definition loads_sample (s : string) : exn + value :=
  if String.eqb s "{}" then inr (Dict [])
  else if String.eqb s sample_object then
    inr (Dict [("read_file", Dict [])])
  else inl (JSONDecodeError "Expecting property name enclosed in double quotes").

(** A check, by evaluation: with [c] braces open before [s], every
    non-empty prefix of [s] leaves a brace open. *)
Fixpoint never_closes (c : Z) (s : string) : bool :=
  match s with
  | "" => true
  | String ch s' =>
      (0 <? c + brace_depth (Str.chr ch))%Z
      && never_closes (c + brace_depth (Str.chr ch)) s'
  end.

End CountTools.

(** * Properties *)

(** ** Strings *)

Module StrFacts.
Import Str.

Lemma app_assoc (a b c : string) : (a +:+ b) +:+ c = a +:+ b +:+ c.
Proof. induction a as [|x a IH]; simpl; [done | by rewrite IH]. Qed.

Lemma app_nil_r (a : string) : a +:+ "" = a.
Proof. induction a as [|x a IH]; simpl; [done | by rewrite IH]. Qed.

Lemma length_app (a b : string) :
  String.length (a +:+ b) = String.length a + String.length b.
Proof. induction a as [|x a IH]; simpl; [done | by rewrite IH]. Qed.

Lemma app_inv_head (a b c : string) : a +:+ b = a +:+ c → b = c.
Proof. apply String.app_inj. Qed.

Lemma length_zero (a : string) : String.length a = 0 → a = "".
Proof. by destruct a. Qed.

(** Two splits of one string at the same offset agree. *)
Lemma app_eq_length (a b c d : string) :
  a +:+ b = c +:+ d → String.length a = String.length c → a = c ∧ b = d.
Proof.
  revert c. induction a as [|x a IH]; intros [|y c]; simpl; try done.
  intros [= -> H] [= Hl]. destruct (IH _ H Hl) as [-> ->]. done.
Qed.

Lemma app_inv_tail (a b c : string) : a +:+ c = b +:+ c → a = b.
Proof.
  intros H. apply (app_eq_length a c b c H).
  apply (f_equal String.length) in H. rewrite !length_app in H. lia.
Qed.

(** Of two prefixes of one string, the shorter is a prefix of the longer. *)
Lemma app_eq_le (a b c d : string) :
  a +:+ b = c +:+ d → String.length a ≤ String.length c →
  ∃ e, c = a +:+ e ∧ b = e +:+ d.
Proof.
  revert c. induction a as [|x a IH]; intros c; simpl.
  - intros -> _. by exists c.
  - destruct c as [|y c]; simpl; [lia |].
    intros [= -> H] Hl. destruct (IH c H) as (e & -> & ->); [lia |].
    by exists e.
Qed.

Lemma eqb_true (a b : ascii) : Ascii.eqb a b = true ↔ a = b.
Proof. apply Ascii.eqb_eq. Qed.

Lemma eqb_false (a b : ascii) : Ascii.eqb a b = false ↔ a ≠ b.
Proof. apply Ascii.eqb_neq. Qed.

Lemma strip_prefix_app (l s : string) : strip_prefix l (l +:+ s) = Some s.
Proof.
  induction l as [|a l IH]; simpl; [done |]. by rewrite Ascii.eqb_refl.
Qed.

Lemma strip_prefix_Some (l s r : string) :
  strip_prefix l s = Some r → s = l +:+ r.
Proof.
  revert s. induction l as [|a l IH]; intros s; simpl.
  - by intros [= ->].
  - destruct s as [|b s]; [done |].
    destruct (Ascii.eqb a b) eqn:E; [| done].
    apply eqb_true in E as ->. intros H. by rewrite (IH _ H).
Qed.

Lemma all_app (f : ascii → bool) (a b : string) :
  all f (a +:+ b) = all f a && all f b.
Proof.
  induction a as [|x a IH]; simpl; [done |]. by rewrite IH, andb_assoc.
Qed.

Lemma mem_app (c : ascii) (a b : string) :
  mem c (a +:+ b) = mem c a || mem c b.
Proof.
  induction a as [|x a IH]; simpl; [done |]. by rewrite IH, orb_assoc.
Qed.

(** [all] over a class that excludes [c] is [c not in s]. *)
Lemma all_neq_mem (c : ascii) (s : string) :
  all (λ x, negb (Ascii.eqb x c)) s = negb (mem c s).
Proof.
  induction s as [|x s IH]; simpl; [done |].
  rewrite IH, negb_orb. by rewrite (Ascii.eqb_sym x c).
Qed.

(** Two runs over a class, each followed by a character outside it. *)
Lemma run_unique (f : ascii → bool) (x y : string) (c d : ascii)
    (s t : string) :
  all f x = true → all f y = true → f c = false → f d = false →
  x +:+ String c s = y +:+ String d t → x = y ∧ c = d ∧ s = t.
Proof.
  revert y. induction x as [|a x IH]; intros [|b y]; simpl.
  - by intros _ _ _ _ [= -> ->].
  - intros _ [Hb _]%andb_prop Hc _ [= -> _]. congruence.
  - intros [Ha _]%andb_prop _ _ Hd [= -> _]. congruence.
  - intros [_ Hx]%andb_prop [_ Hy]%andb_prop Hc Hd [= -> H].
    destruct (IH y Hx Hy Hc Hd H) as (-> & -> & ->). done.
Qed.

(** *** [split] and [join] *)

Lemma split_nonempty (sep : ascii) (s : string) : split sep s ≠ [].
Proof.
  induction s as [|c s IH]; simpl; [done |].
  destruct (Ascii.eqb c sep); [done |]. by destruct (split sep s).
Qed.

Lemma join_cons (sep l : string) (ls : list string) :
  ls ≠ [] → join sep (l :: ls) = l +:+ sep +:+ join sep ls.
Proof. by destruct ls. Qed.

Lemma join_cons_char (sep : string) (c : ascii) (l : string)
    (ls : list string) :
  join sep (String c l :: ls) = String c (join sep (l :: ls)).
Proof. by destruct ls. Qed.

(** [sep.join(s.split(sep))] is [s]. *)
Lemma join_split (sep : ascii) (s : string) :
  join (chr sep) (split sep s) = s.
Proof.
  induction s as [|c s IH]; simpl; [done |].
  destruct (Ascii.eqb c sep) eqn:E.
  - apply eqb_true in E as ->.
    rewrite join_cons by apply split_nonempty. simpl. by rewrite IH.
  - pose proof (split_nonempty sep s) as Hne.
    destruct (split sep s) as [|l ls]; [done |].
    by rewrite join_cons_char, IH.
Qed.

Lemma split_no_sep (sep : ascii) (l : string) :
  mem sep l = false → split sep l = [l].
Proof.
  induction l as [|c l IH]; simpl; [done |].
  rewrite (Ascii.eqb_sym sep c). intros [E Hm]%orb_false_elim.
  rewrite E, (IH Hm). done.
Qed.

Lemma split_app_sep (sep : ascii) (l s : string) :
  mem sep l = false → split sep (l +:+ String sep s) = l :: split sep s.
Proof.
  induction l as [|c l IH]; simpl.
  - intros _. by rewrite Ascii.eqb_refl.
  - rewrite (Ascii.eqb_sym sep c). intros [E Hm]%orb_false_elim.
    rewrite E, (IH Hm). done.
Qed.

(** [sep.join(ls).split(sep)] is [ls] when no element holds [sep]. *)
Lemma split_join (sep : ascii) (ls : list string) :
  ls ≠ [] → Forall (λ l, mem sep l = false) ls →
  split sep (join (chr sep) ls) = ls.
Proof.
  induction ls as [|l ls IH]; [done |]. intros _ Hall.
  apply Forall_cons in Hall as [Hl Hls].
  destruct ls as [|l' ls].
  - simpl. by apply split_no_sep.
  - rewrite join_cons by done.
    change (chr sep +:+ ?x) with (String sep x).
    rewrite split_app_sep by done. by rewrite IH.
Qed.

Lemma drop_app (w s : string) : drop (String.length w) (w +:+ s) = s.
Proof. induction w as [|c w IH]; simpl; [by destruct s | done]. Qed.

Lemma take_app (w s : string) : take (String.length w) (w +:+ s) = w.
Proof. induction w as [|c w IH]; simpl; [by destruct s | by rewrite IH]. Qed.

Lemma take_drop (n : nat) (s : string) : take n s +:+ drop n s = s.
Proof.
  revert s. induction n as [|n IH]; intros [|c s]; simpl; try done.
  by rewrite IH.
Qed.

Lemma length_take (n : nat) (s : string) :
  String.length (take n s) = n `min` String.length s.
Proof.
  revert s. induction n as [|n IH]; intros [|c s]; simpl; try done.
  by rewrite IH.
Qed.

End StrFacts.

(** ** The matcher against what patterns denote *)

Module ReFacts.
Import Str StrFacts Re.

Lemma rep_sound {R : Type} (cls : ascii → bool) (need : nat)
    (k : string → string → option R) (taken s : string) (r : R) :
  rep cls need k taken s = Some r →
  ∃ x rest, s = x +:+ rest ∧ all cls x = true ∧ need ≤ String.length x ∧
            k (taken +:+ x) rest = Some r.
Proof.
  revert need taken. induction s as [|c s IH]; intros need taken; simpl.
  - destruct need; [| done]. intros H. exists "", "".
    split_and!; simpl; rewrite ?app_nil_r; [done | done | lia | done].
  - assert (match need with 0 => k taken (String c s) | S _ => None end
            = Some r →
            ∃ x rest, String c s = x +:+ rest ∧ all cls x = true ∧
              need ≤ String.length x ∧ k (taken +:+ x) rest = Some r)
      as Hstop.
    { destruct need; [| done]. intros H. exists "", (String c s).
      split_and!; simpl; rewrite ?app_nil_r; [done | done | lia | done]. }
    destruct (cls c) eqn:Hc; [| done].
    destruct (rep cls (pred need) k (taken +:+ chr c) s) eqn:Hr; [| done].
    intros [= <-]. apply IH in Hr as (x & rest & -> & Hx & Hn & Hk).
    exists (String c x), rest. simpl. rewrite Hc, Hx.
    rewrite app_assoc in Hk. split_and!; [done | done | lia | done].
Qed.

Lemma rep_complete {R : Type} (cls : ascii → bool) (need : nat)
    (k : string → string → option R) (taken x rest : string) :
  all cls x = true → need ≤ String.length x →
  is_Some (k (taken +:+ x) rest) →
  is_Some (rep cls need k taken (x +:+ rest)).
Proof.
  revert need taken. induction x as [|c x IH]; intros need taken; simpl.
  - intros _ Hn. assert (need = 0) as -> by lia. rewrite app_nil_r.
    intros Hk. destruct rest as [|c s]; simpl; [done |].
    destruct (cls c); [| done].
    by destruct (rep cls 0 k (taken +:+ chr c) s).
  - intros [Hc Hx]%andb_prop Hn Hk. rewrite Hc.
    destruct (IH (pred need) (taken +:+ chr c)) as [r ->]; [done | lia | |].
    + by rewrite app_assoc.
    + done.
Qed.

Lemma match_here_sound (p : pattern) (s : string) (gs : list string)
    (rest : string) :
  match_here p s = Some (gs, rest) → matches p s gs rest.
Proof.
  revert s gs rest. induction p as [|[l|cls|cls min capture|] p IH];
    intros s gs rest; simpl.
  - intros [= <- <-]. constructor.
  - destruct (strip_prefix l s) as [s'|] eqn:E; [| done].
    apply strip_prefix_Some in E as ->. intros H. constructor. by apply IH.
  - destruct s as [|c s]; [done |]. destruct (cls c) eqn:Hc; [| done].
    intros H. constructor; [done |]. by apply IH.
  - intros (x & r & -> & Hx & Hn & Hk)%rep_sound. simpl in Hk.
    destruct (match_here p r) as [[gs' r']|] eqn:E; [| done].
    injection Hk as <- <-. constructor; [done | done |]. by apply IH.
  - destruct s; [| done]. intros H. constructor. by apply IH.
Qed.

Lemma match_here_complete (p : pattern) (s : string) (gs : list string)
    (rest : string) :
  matches p s gs rest → is_Some (match_here p s).
Proof.
  induction 1 as [s|l p s gs rest _ IH|cls p c s gs rest Hc _ IH
                 |cls min capture p x s gs rest Hx Hn _ IH|p gs rest _ IH];
    simpl.
  - done.
  - by rewrite strip_prefix_app.
  - by rewrite Hc.
  - apply rep_complete; [done | done |]. simpl.
    destruct IH as [[gs' r'] ->]. done.
  - done.
Qed.

(** A match is a prefix of the text it was looked for in. *)
Lemma matches_split (p : pattern) (s : string) (gs : list string)
    (rest : string) :
  matches p s gs rest → ∃ w, s = w +:+ rest.
Proof.
  induction 1 as [s|l p s gs rest _ [w ->]|cls p c s gs rest Hc _ [w ->]
                 |cls min capture p x s gs rest Hx Hn _ [w ->]
                 |p gs rest _ IH].
  - by exists "".
  - exists (l +:+ w). by rewrite app_assoc.
  - by exists (String c w).
  - exists (x +:+ w). by rewrite app_assoc.
  - done.
Qed.

(** [search] returns the match at the leftmost position that has one. *)
Lemma search_Some (p : pattern) (s : string) (m : result) :
  search p s = Some m →
  ∃ pre s', s = pre +:+ s' ∧ match_here p s' = Some m ∧
    ∀ pre1 s1, s = pre1 +:+ s1 → String.length pre1 < String.length pre →
               match_here p s1 = None.
Proof.
  induction s as [|c s IH]; simpl.
  - destruct (match_here p "") eqn:E; [| done]. intros [= <-].
    exists "", "". split_and!; [done | done |]. simpl. lia.
  - destruct (match_here p (String c s)) eqn:E.
    + intros [= <-]. exists "", (String c s).
      split_and!; [done | done |]. simpl. lia.
    + intros (pre & s' & -> & Hm & Hleft)%IH. exists (String c pre), s'.
      split_and!; [done | done |]. intros [|c1 pre1] s1; simpl.
      * by intros <-.
      * intros [= <- H] Hl. apply (Hleft pre1 s1 H). lia.
Qed.

Lemma search_None (p : pattern) (s : string) :
  search p s = None → ∀ pre s', s = pre +:+ s' → match_here p s' = None.
Proof.
  induction s as [|c s IH]; simpl.
  - destruct (match_here p "") eqn:E; [done |].
    intros _ [|? ?] s'; simpl; [by intros <- | done].
  - destruct (match_here p (String c s)) eqn:E; [done |].
    intros H [|c1 pre] s'; simpl; [by intros <- |].
    intros [= <- Hs]. by apply (IH H pre).
Qed.

Lemma search_first (p : pattern) (pre s' : string) (m : result) :
  match_here p s' = Some m →
  (∀ pre1 s1, pre +:+ s' = pre1 +:+ s1 →
              String.length pre1 < String.length pre →
              match_here p s1 = None) →
  search p (pre +:+ s') = Some m.
Proof.
  intros Hm. induction pre as [|c pre IH]; intros Hleft.
  - simpl. destruct s'; simpl; by rewrite Hm.
  - simpl. rewrite (Hleft "" (String c (pre +:+ s'))); [| done | simpl; lia].
    apply IH. intros pre1 s1 H Hl.
    apply (Hleft (String c pre1) s1); simpl; [by rewrite H | lia].
Qed.

(** *** The scan of [re.sub] *)

Lemma sub_go_skip (p : pattern) (repl w rest : string) :
  sub_go p repl (String.length w) (w +:+ rest) = sub_go p repl 0 rest.
Proof. induction w as [|c w IH]; simpl; [by destruct rest | done]. Qed.

(** A non-empty match is replaced and the scan goes on after it. *)
Lemma sub_go_match (p : pattern) (repl w rest : string) (gs : list string) :
  w ≠ "" → match_here p (w +:+ rest) = Some (gs, rest) →
  sub_go p repl 0 (w +:+ rest) = repl +:+ sub_go p repl 0 rest.
Proof.
  destruct w as [|c w]; [done |]. intros _ Hm. simpl in *. rewrite Hm.
  rewrite length_app.
  replace (S (String.length w + String.length rest) - String.length rest)
    with (S (String.length w)) by lia.
  by rewrite sub_go_skip.
Qed.

(** Where nothing matches, the character is kept. *)
Lemma sub_go_no_match (p : pattern) (repl : string) (c : ascii) (s : string) :
  match_here p (String c s) = None →
  sub_go p repl 0 (String c s) = String c (sub_go p repl 0 s).
Proof. intros Hm. simpl. by rewrite Hm. Qed.

Lemma sub_go_empty (p : pattern) (repl : string) :
  match_here p "" = None → sub_go p repl 0 "" = "".
Proof. intros Hm. simpl. by rewrite Hm. Qed.

End ReFacts.

(** ** The task-index path repairer *)

Module FixTasksFacts.
Import Str StrFacts Re ReFacts FixTasks.

Lemma reference_app (N X rest : string) :
  reference N X +:+ rest
  = "[#" +:+ N +:+ "](process/tasks/" +:+ X +:+ ".md)" +:+ rest.
Proof. unfold reference. by rewrite !app_assoc. Qed.

Lemma reference_nonempty (N X : string) : reference N X ≠ "".
Proof. done. Qed.

Lemma is_digit_rbracket : is_digit "]" = false.
Proof. reflexivity. Qed.

Lemma not_rparen_rparen : not_rparen ")" = false.
Proof. reflexivity. Qed.

(** The path of a reference ends at the first closing parenthesis. *)
Lemma path_unique (X X' rest rest' : string) :
  all not_rparen X = true → all not_rparen X' = true →
  X +:+ ".md)" +:+ rest = X' +:+ ".md)" +:+ rest' → X = X' ∧ rest = rest'.
Proof.
  intros HX HX' H.
  assert (∀ Y r, Y +:+ ".md)" +:+ r = (Y +:+ ".md") +:+ String ")" r) as E.
  { intros Y r. by rewrite app_assoc. }
  rewrite !E in H.
  apply (run_unique not_rparen) in H as (H1 & _ & H2);
    [| by rewrite all_app, ?HX, ?HX' ..| done | done].
  split; [by apply app_inv_tail in H1 | done].
Qed.

(** A text starts with at most one reference. *)
Lemma reference_unique (N X rest N' X' rest' : string) :
  well_formed N X → well_formed N' X' →
  reference N X +:+ rest = reference N' X' +:+ rest' →
  N = N' ∧ X = X' ∧ rest = rest'.
Proof.
  intros (_ & HN & _ & HX) (_ & HN' & _ & HX'). rewrite !reference_app.
  intros H%app_inv_head.
  apply (run_unique is_digit) in H as (-> & _ & H); [| done ..].
  apply (app_inv_head "(process/tasks/") in H.
  by destruct (path_unique _ _ _ _ HX HX' H) as [-> ->].
Qed.

Lemma length_nonempty (x : string) : 1 ≤ String.length x ↔ x ≠ "".
Proof. destruct x; simpl; split; (done || lia). Qed.

(** What [ref_pattern] denotes. *)
Lemma matches_ref_pattern (s : string) (gs : list string) (rest : string) :
  matches ref_pattern s gs rest ↔
  ∃ N X, s = reference N X +:+ rest ∧ well_formed N X ∧ gs = [N].
Proof.
  split.
  - intros H. unfold ref_pattern in H.
    inversion H as [|? ? s1 ? ? H1| | |]; subst; clear H.
    inversion H1 as [| | |? ? ? ? N s2 gs2 ? HN HlN H2|]; subst; clear H1.
    inversion H2 as [|? ? s3 ? ? H3| | |]; subst; clear H2.
    inversion H3 as [| | |? ? ? ? X s4 gs4 ? HX HlX H4|]; subst; clear H3.
    inversion H4 as [|? ? s5 ? ? H5| | |]; subst; clear H4.
    inversion H5; subst; clear H5.
    exists N, X. rewrite reference_app.
    split_and!; [done | | done]. by repeat split; try apply length_nonempty.
  - intros (N & X & -> & (HN0 & HN & HX0 & HX) & ->). rewrite reference_app.
    unfold ref_pattern. constructor.
    apply (matches_rep is_digit 1 true); [done | by apply length_nonempty |].
    constructor.
    apply (matches_rep not_rparen 1 false);
      [done | by apply length_nonempty |].
    constructor. constructor.
Qed.

(** What [sub_pattern N] denotes. *)
Lemma matches_sub_pattern (N s : string) (gs : list string) (rest : string) :
  matches (sub_pattern N) s gs rest ↔
  ∃ X, s = reference N X +:+ rest ∧ X ≠ "" ∧ all not_rparen X = true ∧
       gs = [].
Proof.
  split.
  - intros H. unfold sub_pattern in H.
    inversion H as [|? ? s1 ? ? H1| | |]; subst; clear H.
    inversion H1 as [|? ? s2 ? ? H2| | |]; subst; clear H1.
    inversion H2 as [|? ? s3 ? ? H3| | |]; subst; clear H2.
    inversion H3 as [| | |? ? ? ? X s4 gs4 ? HX HlX H4|]; subst; clear H3.
    inversion H4 as [|? ? s5 ? ? H5| | |]; subst; clear H4.
    inversion H5; subst; clear H5.
    exists X. rewrite reference_app.
    split_and!; [done | by apply length_nonempty | done | done].
  - intros (X & -> & HX0 & HX & ->). rewrite reference_app.
    unfold sub_pattern. do 3 constructor.
    apply (matches_rep not_rparen 1 false);
      [done | by apply length_nonempty |].
    constructor. constructor.
Qed.

(** [ref_pattern] at the start of a text: it matches exactly when the
    text starts with a reference, and then captures its task number. *)
Lemma match_here_reference (N X rest : string) :
  well_formed N X →
  match_here ref_pattern (reference N X +:+ rest) = Some ([N], rest).
Proof.
  intros Hwf.
  destruct (match_here_complete ref_pattern (reference N X +:+ rest)
              [N] rest) as [[gs r] Hm].
  { apply matches_ref_pattern. by exists N, X. }
  rewrite Hm. apply match_here_sound in Hm.
  apply matches_ref_pattern in Hm as (N' & X' & E & Hwf' & ->).
  by destruct (reference_unique _ _ _ _ _ _ Hwf Hwf' E) as (-> & -> & ->).
Qed.

Lemma match_here_ref_pattern (s : string) (gs : list string) (rest : string) :
  match_here ref_pattern s = Some (gs, rest) →
  ∃ N X, s = reference N X +:+ rest ∧ well_formed N X ∧ gs = [N].
Proof. intros H%match_here_sound. by apply matches_ref_pattern. Qed.

Lemma match_here_sub_reference (N X rest : string) :
  X ≠ "" → all not_rparen X = true →
  match_here (sub_pattern N) (reference N X +:+ rest) = Some ([], rest).
Proof.
  intros HX0 HX.
  destruct (match_here_complete (sub_pattern N) (reference N X +:+ rest)
              [] rest) as [[gs r] Hm].
  { apply matches_sub_pattern. by exists X. }
  rewrite Hm. apply match_here_sound in Hm.
  apply matches_sub_pattern in Hm as (X' & E & HX0' & HX' & ->).
  rewrite !reference_app in E. apply app_inv_head, app_inv_head in E.
  apply (app_inv_head "](process/tasks/") in E.
  by destruct (path_unique _ _ _ _ HX HX' E) as [-> ->].
Qed.

Lemma match_here_sub_pattern (N s : string) (gs : list string)
    (rest : string) :
  match_here (sub_pattern N) s = Some (gs, rest) →
  ∃ X, s = reference N X +:+ rest ∧ X ≠ "" ∧ all not_rparen X = true.
Proof.
  intros H%match_here_sound.
  apply matches_sub_pattern in H as (X & ? & ? & ? & _). by exists X.
Qed.

(** *** Where [search] finds a reference *)

Lemma reference_at_length (s pre N : string) :
  reference_at s pre N → String.length pre < String.length s.
Proof.
  intros (X & post & -> & _). rewrite length_app, reference_app. simpl. lia.
Qed.

Lemma reference_at_cons (c : ascii) (s pre N : string) :
  reference_at (String c s) (String c pre) N ↔ reference_at s pre N.
Proof.
  split; intros (X & post & E & Hwf); exists X, post; (split; [| done]).
  - simpl in E. by injection E.
  - simpl. by rewrite E.
Qed.

Lemma reference_at_cons_inv (c : ascii) (s pre N : string) :
  reference_at (String c s) pre N →
  pre = "" ∨ ∃ pre', pre = String c pre' ∧ reference_at s pre' N.
Proof.
  intros (X & post & E & Hwf). destruct pre as [|c' pre]; [by left | right].
  simpl in E. injection E as <- E.
  exists pre. split; [done |]. by exists X, post.
Qed.

(** [ref_pattern] matches at an offset exactly when a reference starts
    there. *)
Lemma match_here_reference_at (pre s' : string) (gs : list string)
    (rest : string) :
  match_here ref_pattern s' = Some (gs, rest) →
  ∃ N, gs = [N] ∧ reference_at (pre +:+ s') pre N.
Proof.
  intros (N & X & -> & Hwf & ->)%match_here_ref_pattern.
  exists N. split; [done |]. by exists X, rest.
Qed.

Lemma search_no_reference (line : string) :
  (∀ pre N, ¬ reference_at line pre N) ↔ search ref_pattern line = None.
Proof.
  split.
  - intros Hno. destruct (search ref_pattern line) as [[gs rest]|] eqn:E;
      [| done].
    apply search_Some in E as (pre & s' & -> & Hm & _).
    apply (match_here_reference_at pre) in Hm as (N & _ & Hat).
    by destruct (Hno pre N).
  - intros Hs pre N (X & post & -> & Hwf).
    pose proof (search_None _ _ Hs pre _ eq_refl) as Hm.
    by rewrite match_here_reference in Hm.
Qed.

Lemma search_leftmost (line pre N : string) :
  leftmost_reference line pre N →
  ∃ post, search ref_pattern line = Some ([N], post).
Proof.
  intros [(X & post & -> & Hwf) Hleft]. exists post.
  apply search_first; [by apply match_here_reference |].
  intros pre1 s1 E Hl.
  destruct (match_here ref_pattern s1) as [[gs rest]|] eqn:Hm; [| done].
  apply (match_here_reference_at pre1) in Hm as (N' & _ & Hat).
  rewrite <- E in Hat. apply Hleft in Hat. lia.
Qed.

Lemma search_reference (line : string) (gs : list string) (rest : string) :
  search ref_pattern line = Some (gs, rest) →
  ∃ pre N, gs = [N] ∧ leftmost_reference line pre N.
Proof.
  intros (pre & s' & -> & Hm & Hleft)%search_Some.
  destruct (match_here_reference_at pre _ _ _ Hm) as (N & -> & Hat).
  exists pre, N. split; [done |]. split; [done |].
  intros pre' N' (X' & post' & E & Hwf').
  destruct (decide (String.length pre' < String.length pre)) as [Hl|]; [| lia].
  pose proof (Hleft pre' _ E Hl) as Hnone.
  by rewrite match_here_reference in Hnone.
Qed.

(** A line has at most one leftmost reference. *)
Lemma leftmost_reference_unique (line pre N pre' N' : string) :
  leftmost_reference line pre N → leftmost_reference line pre' N' →
  pre = pre' ∧ N = N'.
Proof.
  intros [Hat Hl] [Hat' Hl'].
  pose proof (Hl _ _ Hat'). pose proof (Hl' _ _ Hat).
  destruct Hat as (X & post & -> & Hwf), Hat' as (X' & post' & E & Hwf').
  apply app_eq_length in E as [-> E]; [| lia].
  by destruct (reference_unique _ _ _ _ _ _ Hwf Hwf' E) as (-> & _).
Qed.

(** *** [re.sub] with [sub_pattern N] rewrites the references to [N] *)

Lemma rewritten_cons (N new : string) (c : ascii) (s out : string) :
  ¬ reference_at (String c s) "" N → rewritten N new s out →
  rewritten N new (String c s) (String c out).
Proof.
  intros H0 Hr. inversion Hr as [s0 Hno|pre X post out' Hwf Hleft Hr']; subst.
  - apply rewritten_done. intros pre Hat.
    destruct (reference_at_cons_inv _ _ _ _ Hat) as [->|(pre' & -> & Hat')];
      [done |]. by apply (Hno pre').
  - change (String c (pre +:+ reference N X +:+ post))
      with (String c pre +:+ reference N X +:+ post).
    change (String c (pre +:+ new +:+ out'))
      with (String c pre +:+ new +:+ out').
    apply rewritten_step; [done | | done]. intros pre1 Hat.
    destruct (reference_at_cons_inv _ _ _ _ Hat) as [->|(pre' & -> & Hat')];
      [done |]. apply Hleft in Hat'. simpl. lia.
Qed.

Lemma sub_go_rewritten (N new : string) :
  N ≠ "" → all is_digit N = true →
  ∀ s, rewritten N new s (sub_go (sub_pattern N) new 0 s).
Proof.
  intros HN0 HN s. remember (String.length s) as n eqn:Hn. revert s Hn.
  induction n as [n IH] using lt_wf_ind. intros s ->.
  destruct s as [|c s].
  - rewrite sub_go_empty by done. apply rewritten_done.
    intros pre H%reference_at_length. simpl in H. lia.
  - destruct (match_here (sub_pattern N) (String c s)) as [[gs rest]|] eqn:Hm.
    + destruct (match_here_sub_pattern _ _ _ _ Hm) as (X & E & HX0 & HX).
      rewrite E in Hm |- *.
      rewrite (sub_go_match _ _ _ _ _ (reference_nonempty N X) Hm).
      apply (rewritten_step N new "" X rest); [done | simpl; lia |].
      apply (IH (String.length rest)); [| done].
      rewrite E, length_app. unfold reference. simpl. lia.
    + rewrite sub_go_no_match by done. apply rewritten_cons.
      * intros (X & post & E & _ & _ & HX0 & HX).
        change (String c s = reference N X +:+ post) in E.
        rewrite E, match_here_sub_reference in Hm; done.
      * apply (IH (String.length s)); [simpl; lia | done].
Qed.

(** *** The body of the loop *)

Lemma digits_no_backslash (N : string) :
  all is_digit N = true → mem backslash N = false.
Proof.
  induction N as [|a N IH]; [done |].
  change (is_digit a && all is_digit N = true →
          Ascii.eqb backslash a || mem backslash N = false).
  intros [Hd HN]%andb_prop. rewrite (IH HN), orb_false_r.
  apply eqb_false. by intros <-.
Qed.

Lemma expand_template_repaired (N path : string) :
  all is_digit N = true → mem backslash path = false →
  expand_template ("[#" +:+ N +:+ "](" +:+ ("process/" +:+ path) +:+ ")")
  = Some (repaired N path).
Proof.
  intros HN%digits_no_backslash Hp. unfold expand_template, repaired.
  rewrite !app_assoc, !mem_app, HN, Hp. reflexivity.
Qed.

Lemma fix_line_no_reference (tf : gmap string string) (line : string) :
  (∀ pre N, ¬ reference_at line pre N) → fix_line tf line = Some line.
Proof. intros H%search_no_reference. unfold fix_line. by rewrite H. Qed.

Lemma fix_line_unmapped (tf : gmap string string) (line pre N : string) :
  leftmost_reference line pre N → tf !! N = None →
  fix_line tf line = Some line.
Proof.
  intros [post Hs]%search_leftmost Hn. unfold fix_line.
  rewrite Hs. change (group 1 ([N], post)) with N. by rewrite Hn.
Qed.

Lemma fix_line_mapped (tf : gmap string string) (line pre N path : string) :
  leftmost_reference line pre N → tf !! N = Some path →
  mem backslash path = false →
  fix_line tf line
  = Some (sub_go (sub_pattern N) (repaired N path) 0 line).
Proof.
  intros Hl Hp Hb. destruct (search_leftmost _ _ _ Hl) as [post Hs].
  destruct Hl as [(X & post' & _ & _ & HN & _) _].
  unfold fix_line. rewrite Hs. change (group 1 ([N], post)) with N.
  rewrite Hp. unfold sub.
  by rewrite expand_template_repaired.
Qed.

(** Lines are repaired one by one, each in its place. *)
Lemma fixed_lines_lookup (tf : gmap string string) (lines out : list string)
    (i : nat) (line : string) :
  fixed_lines tf lines = Some out → lines !! i = Some line →
  ∃ line', fix_line tf line = Some line' ∧ out !! i = Some line'.
Proof.
  intros H%mapM_Some Hi.
  destruct (Forall2_lookup_l _ _ _ _ _ H Hi) as (line' & ? & ?).
  by exists line'.
Qed.

Lemma fixed_lines_unchanged (tf : gmap string string) (lines : list string) :
  Forall (λ line, fix_line tf line = Some line) lines →
  fixed_lines tf lines = Some lines.
Proof.
  intros H. apply mapM_Some. induction H; by constructor.
Qed.

(** *** The mapping [task_files] *)

Lemma basename_tasks (name : string) :
  entry_name name → basename ("tasks/" +:+ name) = name.
Proof.
  intros Hn. unfold basename.
  change ("tasks/" +:+ name) with ("tasks" +:+ String "/" name).
  rewrite split_app_sep by done. by rewrite split_no_sep.
Qed.

Lemma is_digit_hyphen : is_digit "-" = false.
Proof. reflexivity. Qed.

(** What [task_pattern] denotes. *)
Lemma matches_task_pattern (s : string) (gs : list string) (rest : string) :
  matches task_pattern s gs rest ↔
  ∃ N, s = N +:+ "-" +:+ rest ∧ N ≠ "" ∧ all is_digit N = true ∧ gs = [N].
Proof.
  split.
  - intros H. unfold task_pattern in H.
    inversion H as [| | |? ? ? ? N s2 gs2 ? HN HlN H2|]; subst; clear H.
    inversion H2 as [|? ? s3 ? ? H3| | |]; subst; clear H2.
    inversion H3; subst; clear H3.
    exists N. split_and!; [done | by apply length_nonempty | done | done].
  - intros (N & -> & HN0 & HN & ->). unfold task_pattern.
    apply (matches_rep is_digit 1 true); [done | by apply length_nonempty |].
    constructor. constructor.
Qed.

Lemma match_here_task_pattern (s : string) (gs : list string) (rest : string) :
  match_here task_pattern s = Some (gs, rest) ↔
  ∃ N, s = N +:+ "-" +:+ rest ∧ N ≠ "" ∧ all is_digit N = true ∧ gs = [N].
Proof.
  split.
  - intros H%match_here_sound. by apply matches_task_pattern.
  - intros (N & -> & HN0 & HN & ->).
    destruct (match_here_complete task_pattern (N +:+ "-" +:+ rest)
                [N] rest) as [[gs r] Hm].
    { apply matches_task_pattern. by exists N. }
    rewrite Hm. apply match_here_sound, matches_task_pattern in Hm
      as (N' & E & _ & HN' & ->).
    by apply (run_unique is_digit) in E as (-> & _ & ->).
Qed.

(** What [glob_pattern] denotes. *)
Lemma matches_glob_pattern (s : string) (gs : list string) (rest : string) :
  matches glob_pattern s gs rest ↔
  ∃ d mid, s = String d (mid +:+ ".md") ∧ is_digit d = true ∧
           gs = [] ∧ rest = "".
Proof.
  split.
  - intros H. unfold glob_pattern in H.
    inversion H as [| |? ? d s1 ? ? Hd H1| |]; subst; clear H.
    inversion H1 as [| | |? ? ? ? mid s2 gs2 ? _ _ H2|]; subst; clear H1.
    inversion H2 as [|? ? s3 ? ? H3| | |]; subst; clear H2.
    inversion H3 as [| | | |? ? ? H4 E]; subst; clear H3.
    inversion H4; subst; clear H4.
    exists d, mid. change (".md" +:+ "") with ".md". done.
  - intros (d & mid & -> & Hd & -> & ->). unfold glob_pattern.
    constructor; [done |].
    apply (matches_rep any_char 0 false); [| lia |].
    { clear. by induction mid. }
    apply (matches_lit ".md" [Eos] "" [] ""). constructor. constructor.
Qed.

Lemma fnmatch_spec (name : string) :
  fnmatch name = true ↔
  ∃ d mid, name = String d (mid +:+ ".md") ∧ is_digit d = true.
Proof.
  unfold fnmatch, re_match. split.
  - destruct (match_here glob_pattern name) as [[gs rest]|] eqn:E; [| done].
    intros _. apply match_here_sound, matches_glob_pattern in E
      as (d & mid & ? & ? & _). by exists d, mid.
  - intros (d & mid & -> & Hd).
    destruct (match_here_complete glob_pattern (String d (mid +:+ ".md"))
                [] "") as [r ->]; [| done].
    apply matches_glob_pattern. by exists d, mid.
Qed.

(** After the digits and the hyphen, the name still ends in [.md]. *)
Lemma md_after_number (N s rest : string) :
  all is_digit N = true → s +:+ ".md" = N +:+ "-" +:+ rest →
  ∃ tail, rest = tail +:+ ".md".
Proof.
  revert s. induction N as [|n N IH]; intros s HN E.
  - destruct s as [|c s]; [done |]. injection E as -> E. by exists s.
  - change (is_digit n && all is_digit N = true) in HN.
    apply andb_prop in HN as [Hn HN].
    destruct s as [|c s]; [injection E as <- _; done |].
    injection E as -> E. by apply (IH s).
Qed.

Lemma key_tasks (name : string) :
  entry_name name →
  key ("tasks/" +:+ name)
  = match match_here task_pattern name with
    | Some m => Some (group 1 m)
    | None => None
    end.
Proof. intros Hn. unfold key, re_match. by rewrite basename_tasks. Qed.

(** The files the loop puts under key [N] are the task files numbered
    [N]. *)
Lemma key_task_file (name N : string) :
  entry_name name →
  fnmatch name = true ∧ key ("tasks/" +:+ name) = Some N ↔ task_file name N.
Proof.
  intros Hn. rewrite key_tasks by done. split.
  - intros [(d & mid & E & Hd)%fnmatch_spec Hk].
    destruct (match_here task_pattern name) as [[gs rest]|] eqn:Hm; [| done].
    apply match_here_task_pattern in Hm as (N' & E' & HN0 & HN & ->).
    injection Hk as <-.
    destruct (md_after_number N' (String d mid) rest HN) as [tail ->].
    { by rewrite <- E' , E. }
    by exists tail.
  - intros (tail & -> & HN0 & HN). split.
    + apply fnmatch_spec. destruct N as [|d N]; [done |].
      change (is_digit d && all is_digit N = true) in HN.
      apply andb_prop in HN as [Hd HN].
      exists d, (N +:+ "-" +:+ tail). split; [| done].
      simpl. by rewrite !app_assoc.
    + assert (match_here task_pattern (N +:+ "-" +:+ tail +:+ ".md")
              = Some ([N], tail +:+ ".md")) as ->; [| done].
      apply match_here_task_pattern. by exists N.
Qed.

Lemma add_task_file_key (m : gmap string string) (filepath : string) :
  add_task_file m filepath
  = match key filepath with
    | Some N => <[N := filepath]> m
    | None => m
    end.
Proof.
  unfold add_task_file, key. by destruct (re_match task_pattern _).
Qed.

(** After the loop, a key holds the last path filed under it. *)
Lemma foldl_add_task_file (L : list string) (m : gmap string string)
    (N p : string) :
  foldl add_task_file m L !! N = Some p ↔
  (∃ l1 l2, L = l1 ++ p :: l2 ∧ key p = Some N ∧
            Forall (λ q, key q ≠ Some N) l2) ∨
  (Forall (λ q, key q ≠ Some N) L ∧ m !! N = Some p).
Proof.
  revert m. induction L as [|x L IH]; intros m; simpl.
  - split; [by right | intros [([|??] & ? & ? & _)|[_ ?]]; done].
  - rewrite IH, add_task_file_key. split.
    + intros [(l1 & l2 & -> & Hk & Hall)|[Hall Hm]].
      * left. by exists (x :: l1), l2.
      * destruct (key x) as [N'|] eqn:Hx.
        -- destruct (decide (N' = N)) as [->|Hne].
           ++ rewrite lookup_insert_eq in Hm. injection Hm as <-.
              left. by exists [], L.
           ++ rewrite lookup_insert_ne in Hm by done. right.
              split; [| done]. constructor; [congruence | done].
        -- right. split; [| done]. constructor; [congruence | done].
    + intros [(l1 & l2 & E & Hk & Hall)|[Hall Hm]].
      * destruct l1 as [|y l1]; simpl in E; injection E as -> ->.
        -- right. split; [done |]. by rewrite Hk, lookup_insert_eq.
        -- left. by exists l1, l2.
      * apply Forall_cons in Hall as [Hx Hall]. right. split; [done |].
        destruct (key x) as [N'|]; [| done].
        rewrite lookup_insert_ne; [done | congruence].
Qed.

Lemma foldl_add_task_file_None (L : list string) (m : gmap string string)
    (N : string) :
  foldl add_task_file m L !! N = None ↔
  Forall (λ q, key q ≠ Some N) L ∧ m !! N = None.
Proof.
  revert m. induction L as [|x L IH]; intros m; simpl.
  - split; [done | by intros [_ ?]].
  - rewrite IH, add_task_file_key, Forall_cons.
    destruct (key x) as [N'|] eqn:Hx.
    + destruct (decide (N' = N)) as [->|Hne].
      * rewrite lookup_insert_eq. split; [by intros [_ ?] | by intros [[? _] _]].
      * rewrite lookup_insert_ne by done.
        split; [intros [? ?] | intros [[_ ?] ?]]; split_and!; congruence.
    + split; [intros [? ?] | intros [[_ ?] ?]]; split_and!; congruence.
Qed.

Lemma le_tasks (a b : string) :
  String.le ("tasks/" +:+ a) ("tasks/" +:+ b) ↔ String.le a b.
Proof. done. Qed.

Lemma elem_of_sorted_glob (dir : list string) (p : string) :
  p ∈ sorted (glob dir) ↔
  ∃ name, p = "tasks/" +:+ name ∧ name ∈ dir ∧ fnmatch name = true.
Proof.
  unfold sorted, glob. rewrite merge_sort_Permutation.
  rewrite list_elem_of_In, in_map_iff. split.
  - intros (name & <- & [Hin Hf]%filter_In). exists name.
    by rewrite list_elem_of_In.
  - intros (name & -> & Hin%list_elem_of_In & Hf). exists name.
    by rewrite filter_In.
Qed.

Lemma sorted_glob_sorted (dir : list string) :
  StronglySorted String.le (sorted (glob dir)).
Proof. apply StronglySorted_merge_sort; apply _. Qed.

(** The paths filed under [N] come from the task files numbered [N]. *)
Lemma sorted_glob_key (dir : list string) (N q : string) :
  Forall entry_name dir → q ∈ sorted (glob dir) → key q = Some N →
  ∃ name, q = "tasks/" +:+ name ∧ name ∈ dir ∧ task_file name N.
Proof.
  intros Hdir (name & -> & Hin & Hf)%elem_of_sorted_glob Hk.
  exists name. split_and!; [done | done |].
  apply key_task_file; [| done]. by apply (proj1 (Forall_forall _ _) Hdir).
Qed.

Lemma task_file_sorted_glob (dir : list string) (N name : string) :
  Forall entry_name dir → name ∈ dir → task_file name N →
  "tasks/" +:+ name ∈ sorted (glob dir) ∧ key ("tasks/" +:+ name) = Some N.
Proof.
  intros Hdir Hin Ht.
  apply key_task_file in Ht as [Hf Hk];
    [| by apply (proj1 (Forall_forall _ _) Hdir)].
  split; [| done]. apply elem_of_sorted_glob. by exists name.
Qed.

(** [task_files] maps a task number to the path [tasks/<name>] of the
    greatest, in the order of [sorted], task file that carries it. *)
Lemma task_files_Some (dir : list string) (N p : string) :
  Forall entry_name dir →
  task_files dir !! N = Some p ↔
  ∃ name, p = "tasks/" +:+ name ∧ name ∈ dir ∧ task_file name N ∧
          ∀ name', name' ∈ dir → task_file name' N → String.le name' name.
Proof.
  intros Hdir. unfold task_files. rewrite foldl_add_task_file.
  pose proof (sorted_glob_sorted dir) as Hsorted. split.
  - intros [(l1 & l2 & E & Hk & Hall)|[_ ?]]; [| done].
    destruct (sorted_glob_key dir N p Hdir) as (name & -> & Hin & Ht);
      [rewrite E; set_solver | done |].
    exists name. split_and!; [done | done | done |].
    intros name' Hin' Ht'.
    destruct (task_file_sorted_glob dir N name' Hdir Hin' Ht') as [Hq Hkq].
    rewrite E in Hq, Hsorted.
    apply elem_of_app in Hq as [Hq|Hq].
    + apply le_tasks.
      apply (StronglySorted_app_1_elem_of String.le l1
               (("tasks/" +:+ name) :: l2) _ ("tasks/" +:+ name) Hsorted Hq).
      set_solver.
    + apply elem_of_cons in Hq as [Hq|Hq].
      * by apply (inj (String.append "tasks/")) in Hq as ->.
      * by destruct (proj1 (Forall_forall _ _) Hall _ Hq).
  - intros (name & -> & Hin & Ht & Hmax). left.
    destruct (task_file_sorted_glob dir N name Hdir Hin Ht) as [Hp Hk].
    destruct (list_elem_of_split_r _ _ Hp) as (l1 & l2 & E & Hnotin).
    exists l1, l2. split_and!; [done | done |].
    apply Forall_forall. intros q Hq Hkq.
    destruct (sorted_glob_key dir N q Hdir) as (name' & -> & Hin' & Ht');
      [rewrite E; set_solver | done |].
    rewrite E in Hsorted.
    apply StronglySorted_app_1_r, StronglySorted_cons in Hsorted
      as [Hge _].
    pose proof (proj1 (Forall_forall _ _) Hge _ Hq) as Hle.
    apply le_tasks in Hle. pose proof (Hmax name' Hin' Ht') as Hle'.
    assert (name = name') as <- by (by apply (anti_symm String.le)).
    done.
Qed.

(** A task number is a key exactly when some task file carries it. *)
Lemma task_files_None (dir : list string) (N : string) :
  Forall entry_name dir →
  task_files dir !! N = None ↔ ∀ name, name ∈ dir → ¬ task_file name N.
Proof.
  intros Hdir. unfold task_files.
  rewrite foldl_add_task_file_None, Forall_forall. split.
  - intros [Hall _] name Hin Ht.
    destruct (task_file_sorted_glob dir N name Hdir Hin Ht) as [Hp Hk].
    by apply (Hall _ Hp).
  - intros Hno. split; [| done]. intros q Hq Hk.
    destruct (sorted_glob_key dir N q Hdir Hq Hk) as (name & _ & Hin & Ht).
    by apply (Hno name).
Qed.

(** *** [references] lists the references of a line *)

Lemma references_from_ge (s : string) (i : nat) (x : nat * string) :
  x ∈ references_from i s → i ≤ x.1.
Proof.
  revert i. induction s as [|c s IH]; intros i.
  - intros H. by apply elem_of_nil in H.
  - cbn [references_from]. intros [H|H]%elem_of_app.
    + destruct (match_here ref_pattern (String c s));
        [| by apply elem_of_nil in H].
      apply list_elem_of_singleton in H as ->. simpl. lia.
    + apply IH in H. lia.
Qed.

Lemma references_from_spec (s : string) (i : nat) (pre N : string) :
  reference_at s pre N ↔
  (∃ rest, s = pre +:+ rest) ∧
  (i + String.length pre, N) ∈ references_from i s.
Proof.
  revert i pre. induction s as [|c s IH]; intros i pre.
  - split.
    + intros H%reference_at_length. simpl in H. lia.
    + intros [_ H]. simpl in H. by apply elem_of_nil in H.
  - cbn [references_from]. rewrite elem_of_app. split.
    + intros Hat.
      destruct (reference_at_cons_inv _ _ _ _ Hat) as [->|(pre' & -> & Hat')].
      * split; [by exists (String c s) |]. left.
        destruct Hat as (X & post & E & Hwf).
        change (String c s = reference N X +:+ post) in E.
        rewrite E, match_here_reference by done.
        simpl. rewrite Nat.add_0_r. by apply list_elem_of_singleton.
      * apply (IH (S i)) in Hat' as [[rest ->] Hin].
        split; [by exists rest |]. right. simpl.
        by rewrite Nat.add_succ_r.
    + intros [[rest E] [Hin|Hin]].
      * destruct (match_here ref_pattern (String c s)) as [[gs r]|] eqn:Hm;
          [| by apply elem_of_nil in Hin].
        apply list_elem_of_singleton in Hin. injection Hin as Hl HN.
        assert (pre = "") as -> by (apply length_zero; lia).
        apply match_here_ref_pattern in Hm as (N' & X & Es & Hwf & ->).
        change (N = N') in HN. subst N'. by exists X, r.
      * pose proof (references_from_ge _ _ _ Hin) as Hge. simpl in Hge.
        destruct pre as [|c' pre]; [simpl in Hge; lia |].
        injection E as <- E. apply reference_at_cons. apply (IH (S i)).
        split; [by exists rest |]. simpl in Hin.
        by rewrite Nat.add_succ_r in Hin.
Qed.

Lemma reference_at_references (line pre N : string) :
  reference_at line pre N → (String.length pre, N) ∈ references line.
Proof. intros H. by apply (references_from_spec line 0) in H as [_ ?]. Qed.

(** A check, by evaluation, that the leftmost reference of a line is the
    one at offset [String.length pre]. *)
Lemma leftmost_reference_check (line pre N rest : string) :
  line = pre +:+ rest →
  head (references line) = Some (String.length pre, N) →
  forallb (λ x, String.length pre <=? x.1) (references line) = true →
  leftmost_reference line pre N.
Proof.
  intros E Hhd Hall. split.
  - apply (references_from_spec line 0). split; [by exists rest |].
    fold (references line). destruct (references line); [done |].
    injection Hhd as ->. by left.
  - intros pre' N' Hat%reference_at_references%list_elem_of_In.
    apply (proj1 (forallb_forall _ _) Hall) in Hat.
    by apply Nat.leb_le in Hat.
Qed.

(** A check, by evaluation, of a property of every task number a line
    refers to. *)
Lemma references_check (P : string → Prop) (line : string) :
  Forall (λ x, P x.2) (references line) →
  ∀ pre N, reference_at line pre N → P N.
Proof.
  intros Hall pre N Hat%reference_at_references.
  by apply (proj1 (Forall_forall _ _) Hall) in Hat.
Qed.

(** *** [rewritten] determines the repaired line *)

Lemma rewritten_inv (N new s out : string) :
  rewritten N new s out →
  (out = s ∧ ∀ pre, ¬ reference_at s pre N) ∨
  ∃ pre X post out',
    s = pre +:+ reference N X +:+ post ∧ out = pre +:+ new +:+ out' ∧
    well_formed N X ∧
    (∀ pre', reference_at s pre' N →
             String.length pre ≤ String.length pre') ∧
    rewritten N new post out'.
Proof.
  destruct 1 as [s Hno|pre X post out Hwf Hleft Hr]; [by left | right].
  by exists pre, X, post, out.
Qed.

Lemma rewritten_unique (N new s out1 out2 : string) :
  rewritten N new s out1 → rewritten N new s out2 → out1 = out2.
Proof.
  intros H1. revert out2.
  induction H1 as [s Hno|pre X post out Hwf Hleft _ IH]; intros out2 H2;
    apply rewritten_inv in H2
      as [[-> Hno']|(pre' & X' & post' & out' & E & -> & Hwf' & Hleft' & H2)].
  - done.
  - destruct (Hno pre'). by exists X', post'.
  - destruct (Hno' pre). by exists X, post.
  - assert (String.length pre ≤ String.length pre') as Hle.
    { apply Hleft. rewrite E. by exists X', post'. }
    assert (String.length pre' ≤ String.length pre) as Hle'.
    { apply Hleft'. by exists X, post. }
    apply app_eq_length in E as [-> E]; [| lia].
    destruct (reference_unique _ _ _ _ _ _ Hwf Hwf' E) as (_ & -> & ->).
    by rewrite (IH _ H2).
Qed.

(** *** The claims about the repairer *)

(** The script writes back the repaired lines, joined by newlines. *)
Lemma main_fixed_lines (dir : list string) (content written : string)
    (printed : list string) :
  main dir content = Some (written, printed) ↔
  ∃ fixed, fixed_lines (task_files dir) (split newline content) = Some fixed ∧
           written = join (chr newline) fixed ∧
           printed = ["Fixed all file paths in tasks.md"].
Proof.
  unfold main.
  destruct (fixed_lines (task_files dir) (split newline content)) as [fixed|].
  - split; [intros [= <- <-]; by exists fixed | by intros (? & [= <-] & -> & ->)].
  - split; [done | by intros (? & [=] & _)].
Qed.

Lemma example_line_leftmost : leftmost_reference example_line "- " "007".
Proof.
  by apply (leftmost_reference_check _ _ _
              "[#007](process/tasks/foo.md) Some title").
Qed.

Lemma example_line_lookup (dir : list string) :
  Forall entry_name dir → "007-bar.md" ∈ dir →
  (∀ name, name ∈ dir → task_file name "007" →
           String.le name "007-bar.md") →
  task_files dir !! "007" = Some "tasks/007-bar.md".
Proof.
  intros Hdir Hin Hmax. apply task_files_Some; [done |].
  exists "007-bar.md". split_and!; [done | done | | done]. by exists "bar".
Qed.

(** C1, as stated, fails: with [tasks/007-bar.md] present beside
    [tasks/007-baz.md], the line of the example is rewritten to the
    second file, not to [process/tasks/007-bar.md]. *)
Lemma example_line_two_files_counterexample :
  "007-bar.md" ∈ ["007-bar.md"; "007-baz.md"] ∧
  fix_line (task_files ["007-bar.md"; "007-baz.md"]) example_line
  = Some "- [#007](process/tasks/007-baz.md) Some title" ∧
  fix_line (task_files ["007-bar.md"; "007-baz.md"]) example_line
  ≠ Some example_repaired.
Proof.
  split_and!; [set_solver | by vm_compute |].
  intros H. vm_compute in H. discriminate H.
Qed.

(** C1 (amended): for the line
    [- [#007](process/tasks/foo.md) Some title] and a listing of [tasks/]
    in which [007-bar.md] is the greatest, in sorted order, of the task
    files numbered 007 (so, when it is the only one), the repairer
    rewrites the path of the link to [process/tasks/007-bar.md] and
    changes no other character: the loop turns the line into
    [- [#007](process/tasks/007-bar.md) Some title], at its index in the
    list of lines that is joined and written. *)
Theorem repairs_example_line (dir : list string) :
  Forall entry_name dir → "007-bar.md" ∈ dir →
  (∀ name, name ∈ dir → task_file name "007" →
           String.le name "007-bar.md") →
  fix_line (task_files dir) example_line = Some example_repaired ∧
  ∀ lines out i,
    lines !! i = Some example_line →
    fixed_lines (task_files dir) lines = Some out →
    out !! i = Some example_repaired.
Proof.
  intros Hdir Hin Hmax.
  assert (fix_line (task_files dir) example_line = Some example_repaired)
    as Hfix.
  { rewrite (fix_line_mapped _ _ _ _ _ example_line_leftmost
               (example_line_lookup dir Hdir Hin Hmax)) by done.
    by vm_compute. }
  split; [done |]. intros lines out i Hi Hout.
  destruct (fixed_lines_lookup _ _ _ _ _ Hout Hi) as (line' & Hl & ->).
  by rewrite <- Hl, Hfix.
Qed.

Lemma repairs_example_line_witness :
  fix_line (task_files ["001-x.md"; "007-bar.md"; "007-add.md"]) example_line
  = Some example_repaired.
Proof.
  refine (proj1 (repairs_example_line
                   ["001-x.md"; "007-bar.md"; "007-add.md"] _ _ _)).
  - repeat constructor.
  - set_solver.
  - intros name Hin%list_elem_of_In _.
    by destruct Hin as [<-|[<-|[<-|[]]]].
Defined.

(** A line whose leftmost reference is its only reference to [N]. *)
Lemma fix_line_single (tf : gmap string string)
    (pre N X post path : string) :
  well_formed N X →
  leftmost_reference (pre +:+ reference N X +:+ post) pre N →
  (∀ pre', ¬ reference_at post pre' N) →
  tf !! N = Some path → mem backslash path = false →
  fix_line tf (pre +:+ reference N X +:+ post)
  = Some (pre +:+ repaired N path +:+ post).
Proof.
  intros Hwf Hl Hno Hp Hb. rewrite (fix_line_mapped _ _ _ _ _ Hl Hp Hb).
  f_equal. destruct Hwf as (HN0 & HN & HX0 & HX).
  apply (rewritten_unique N (repaired N path)
           (pre +:+ reference N X +:+ post)).
  - by apply sub_go_rewritten.
  - apply rewritten_step; [done | | by apply rewritten_done].
    intros pre' Hat. by apply (proj2 Hl pre' N).
Qed.

(** C2, as stated, fails: the mapping holds the path [tasks/007-bar.md],
    not the path of the file relative to the tasks directory
    ([007-bar.md]), so the repaired link is not
    [process/<path relative to tasks/>]; and a line whose second
    reference carries a key of the mapping, but whose first reference
    does not, is left as it is. *)
Lemma mapping_value_counterexample :
  task_files ["007-bar.md"] !! "007" = Some "tasks/007-bar.md" ∧
  task_files ["007-bar.md"] !! "007" ≠ Some "007-bar.md" ∧
  fix_line (task_files ["007-bar.md"]) example_line
  ≠ Some "- [#007](process/007-bar.md) Some title" ∧
  fix_line (task_files ["007-bar.md"])
    "- [#042](process/tasks/x.md) and [#007](process/tasks/y.md)"
  = Some "- [#042](process/tasks/x.md) and [#007](process/tasks/y.md)".
Proof.
  split_and!; [by vm_compute | | | by vm_compute];
    intros H; vm_compute in H; discriminate H.
Qed.

(** C2 (amended): the repairer builds a mapping from each task number (a
    string of digits) to the path [tasks/<name>], relative to the working
    directory, of the task file that carries the number, the greatest in
    sorted order when several do; and for every index line whose leftmost
    reference has a task number [N] that is a key of the mapping, whose
    path holds no backslash, the loop replaces each reference to [N] in
    the line, from left to right, by [[#N](process/<mapped path>)] and
    changes nothing else; when that reference is the only one to [N],
    the line [pre ++ reference ++ post] becomes
    [pre ++ [#N](process/<mapped path>) ++ post]. *)
Theorem builds_mapping_and_rewrites (dir : list string) :
  Forall entry_name dir →
  (∀ N path,
     task_files dir !! N = Some path ↔
     ∃ name, path = "tasks/" +:+ name ∧ name ∈ dir ∧ task_file name N ∧
             ∀ name', name' ∈ dir → task_file name' N →
                      String.le name' name) ∧
  (∀ line pre N path,
     leftmost_reference line pre N → task_files dir !! N = Some path →
     mem backslash path = false →
     ∃ out, fix_line (task_files dir) line = Some out ∧
            rewritten N (repaired N path) line out ∧
            ∀ out', rewritten N (repaired N path) line out' → out' = out) ∧
  (∀ pre N X post path,
     well_formed N X →
     leftmost_reference (pre +:+ reference N X +:+ post) pre N →
     (∀ pre', ¬ reference_at post pre' N) →
     task_files dir !! N = Some path → mem backslash path = false →
     fix_line (task_files dir) (pre +:+ reference N X +:+ post)
     = Some (pre +:+ repaired N path +:+ post)).
Proof.
  intros Hdir. split_and!.
  - intros N path. by apply task_files_Some.
  - intros line pre N path Hl Hp Hb.
    exists (sub_go (sub_pattern N) (repaired N path) 0 line).
    assert (rewritten N (repaired N path) line
              (sub_go (sub_pattern N) (repaired N path) 0 line)) as Hr.
    { destruct Hl as [(X & post & _ & HN0 & HN & _) _].
      by apply sub_go_rewritten. }
    split_and!; [by apply (fix_line_mapped _ _ pre) | done |].
    intros out' Hr'. by apply (rewritten_unique _ _ _ _ _ Hr' Hr).
  - intros pre N X post path. apply fix_line_single.
Qed.

Lemma builds_mapping_and_rewrites_witness :
  fix_line (task_files ["007-bar.md"; "012-baz.md"])
    ("see " +:+ reference "012" "old/name" +:+ " for details")
  = Some ("see " +:+ repaired "012" "tasks/012-baz.md" +:+ " for details").
Proof.
  refine (proj2 (proj2 (builds_mapping_and_rewrites
                          ["007-bar.md"; "012-baz.md"] _))
            "see " "012" "old/name" " for details" "tasks/012-baz.md"
            _ _ _ _ _).
  - repeat constructor.
  - done.
  - by apply (leftmost_reference_check _ _ _
                (reference "012" "old/name" +:+ " for details")).
  - intros pre' H.
    refine (references_check (λ _, False) _ _ pre' "012" H).
    vm_compute. constructor.
  - by vm_compute.
  - done.
Defined.

(** C7, as stated, fails: a line that refers to task 042, which has no
    file, is modified when the reference before it carries a number that
    has one. *)
Lemma unmapped_second_reference_counterexample :
  reference_at "- [#007](process/tasks/foo.md) see [#042](process/tasks/x.md)"
    "- [#007](process/tasks/foo.md) see " "042" ∧
  (∀ name, name ∈ ["007-bar.md"] → ¬ task_file name "042") ∧
  task_files ["007-bar.md"] !! "042" = None ∧
  fix_line (task_files ["007-bar.md"])
    "- [#007](process/tasks/foo.md) see [#042](process/tasks/x.md)"
  ≠ Some "- [#007](process/tasks/foo.md) see [#042](process/tasks/x.md)".
Proof.
  split_and!.
  - by exists "x", "".
  - intros name ->%list_elem_of_singleton (tail & E & _). discriminate E.
  - by vm_compute.
  - intros H. vm_compute in H. discriminate H.
Qed.

(** C7 (amended): for every line of [tasks.md] whose leftmost reference
    carries a task number with no task file under [tasks/], the number is
    not a key of the mapping, the loop gives the line back unchanged
    instead of failing, and the line stands unchanged, at its index, in
    the list of lines that is joined and written. *)
Theorem unmapped_leftmost_reference_unchanged (dir : list string)
    (line pre N : string) :
  Forall entry_name dir → leftmost_reference line pre N →
  (∀ name, name ∈ dir → ¬ task_file name N) →
  task_files dir !! N = None ∧
  fix_line (task_files dir) line = Some line ∧
  ∀ lines out i,
    lines !! i = Some line → fixed_lines (task_files dir) lines = Some out →
    out !! i = Some line.
Proof.
  intros Hdir Hl Hno.
  assert (task_files dir !! N = None) as Hn by by apply task_files_None.
  pose proof (fix_line_unmapped _ _ _ _ Hl Hn) as Hfix.
  split_and!; [done | done |]. intros lines out i Hi Hout.
  destruct (fixed_lines_lookup _ _ _ _ _ Hout Hi) as (line' & Hl' & ->).
  by rewrite <- Hl', Hfix.
Qed.

Lemma unmapped_leftmost_reference_unchanged_witness :
  fix_line (task_files ["007-bar.md"])
    "- [#042](process/tasks/x.md) and [#007](process/tasks/y.md)"
  = Some "- [#042](process/tasks/x.md) and [#007](process/tasks/y.md)".
Proof.
  refine (proj1 (proj2 (unmapped_leftmost_reference_unchanged
                          ["007-bar.md"] _ "- " "042" _ _ _))).
  - repeat constructor.
  - by apply (leftmost_reference_check _ _ _
                "[#042](process/tasks/x.md) and [#007](process/tasks/y.md)").
  - intros name ->%list_elem_of_singleton (tail & E & _). discriminate E.
Defined.

(** C8: a line of [tasks.md] that holds no reference
    [[#N](process/tasks/….md)], for any [N], is never modified: the loop
    gives it back as it is, and it stands unchanged, at its index, in the
    list of lines that is joined and written. *)
Theorem line_without_reference_unchanged (tf : gmap string string)
    (line : string) :
  (∀ pre N, ¬ reference_at line pre N) →
  fix_line tf line = Some line ∧
  ∀ lines out i,
    lines !! i = Some line → fixed_lines tf lines = Some out →
    out !! i = Some line.
Proof.
  intros Hno. pose proof (fix_line_no_reference tf _ Hno) as Hfix.
  split; [done |]. intros lines out i Hi Hout.
  destruct (fixed_lines_lookup _ _ _ _ _ Hout Hi) as (line' & Hl' & ->).
  by rewrite <- Hl', Hfix.
Qed.

Lemma line_without_reference_unchanged_witness :
  fix_line (task_files ["007-bar.md"]) "## Tasks (see process/tasks/007-bar.md)"
  = Some "## Tasks (see process/tasks/007-bar.md)".
Proof.
  refine (proj1 (line_without_reference_unchanged _ _ _)).
  by apply search_no_reference.
Defined.

(** When no line of the text carries a reference whose task number is a
    key of the mapping, the text handed to [f.write] is the text
    [f.read()] returned: splitting on newlines and joining the unmodified
    lines with newlines is the identity. *)
Lemma unmodified_text_round_trip (dir : list string) (content : string) :
  (∀ line pre N,
     line ∈ split newline content → reference_at line pre N →
     task_files dir !! N = None) →
  join (chr newline) (split newline content) = content ∧
  main dir content = Some (content, ["Fixed all file paths in tasks.md"]).
Proof.
  intros Hno. split; [apply join_split |]. unfold main.
  rewrite fixed_lines_unchanged; [by rewrite join_split |].
  apply Forall_forall. intros line Hin.
  destruct (search ref_pattern line) as [[gs rest]|] eqn:Hs.
  - apply search_reference in Hs as (pre & N & _ & Hl).
    apply (fix_line_unmapped _ _ _ _ Hl). by apply (Hno line pre N), Hl.
  - by apply fix_line_no_reference, search_no_reference.
Qed.

(** *** Line endings *)

(** Text mode reads a file without a carriage return as it is. *)
Lemma read_text_no_cr (file : string) :
  mem carriage_return file = false → read_text file = file.
Proof.
  unfold read_text. induction file as [|c file IH]; [done |].
  change (Ascii.eqb carriage_return c || mem carriage_return file = false
          → read_text_from false (String c file) = String c file).
  intros [Hc Hfile]%orb_false_elim. simpl.
  rewrite Ascii.eqb_sym, Hc.
  destruct (Ascii.eqb_spec c newline) as [->|_]; by rewrite (IH Hfile).
Qed.

(** What is read holds no carriage return. *)
Lemma read_text_from_cr (after_cr : bool) (file : string) :
  mem carriage_return (read_text_from after_cr file) = false.
Proof.
  revert after_cr. induction file as [|c file IH]; intros after_cr; [done |].
  simpl. destruct (Ascii.eqb_spec c carriage_return) as [->|Hc].
  - apply (IH true).
  - destruct (Ascii.eqb c newline).
    + destruct after_cr; [apply IH |]. apply (IH false).
    + change (Ascii.eqb carriage_return c
              || mem carriage_return (read_text_from false file) = false).
      rewrite IH, orb_false_r. apply eqb_false. by intros <-.
Qed.

(** On POSIX, text mode writes a text as it is. *)
Lemma write_text_posix (text : string) :
  write_text posix_linesep text = text.
Proof.
  induction text as [|c text IH]; [done |]. simpl. rewrite IH.
  by destruct (Ascii.eqb_spec c newline) as [->|_].
Qed.

(** The file written is the file read, with every line ending made the
    line separator of the platform, when no line is rewritten. *)
Lemma script_unmodified (linesep : string) (dir : list string)
    (file : string) :
  (∀ line pre N,
     line ∈ split newline (read_text file) → reference_at line pre N →
     task_files dir !! N = None) →
  script linesep dir file
  = Some (write_text linesep (read_text file),
          ["Fixed all file paths in tasks.md"]).
Proof.
  intros Hno. unfold script.
  by rewrite (proj2 (unmodified_text_round_trip dir (read_text file) Hno)).
Qed.

(** C10, as stated, fails: a [tasks.md] with DOS line endings in which no
    line carries a reference whose task number is a key of the mapping
    (neither a line of the file nor a line of the text read from it) is
    written back with POSIX line endings, not byte for byte. *)
Lemma crlf_file_counterexample :
  (∀ line pre N,
     line ∈ split newline crlf_file → reference_at line pre N →
     task_files ["007-bar.md"] !! N = None) ∧
  (∀ line pre N,
     line ∈ split newline (read_text crlf_file) → reference_at line pre N →
     task_files ["007-bar.md"] !! N = None) ∧
  script posix_linesep ["007-bar.md"] crlf_file
  = Some (lf_file, ["Fixed all file paths in tasks.md"]) ∧
  lf_file ≠ crlf_file.
Proof.
  split_and!.
  - intros line pre N Hin%list_elem_of_In.
    destruct Hin as [<-|[<-|[<-|[]]]];
      apply (references_check (λ N, task_files ["007-bar.md"] !! N = None));
      vm_compute; repeat constructor.
  - intros line pre N Hin%list_elem_of_In.
    destruct Hin as [<-|[<-|[<-|[]]]];
      apply (references_check (λ N, task_files ["007-bar.md"] !! N = None));
      vm_compute; repeat constructor.
  - by vm_compute.
  - discriminate.
Qed.

(** C10 (amended): on a platform whose line separator is the newline
    character, when [tasks.md] holds no carriage return and no line of
    it carries a reference whose task number is a key of the mapping,
    the repairer writes back the file it read, character for character:
    text mode reads the file as it is, splitting on newlines and joining
    the unmodified lines with newlines is the identity, and text mode
    writes the text as it is. *)
Theorem unmodified_file_round_trip (dir : list string) (file : string) :
  mem carriage_return file = false →
  (∀ line pre N,
     line ∈ split newline file → reference_at line pre N →
     task_files dir !! N = None) →
  read_text file = file ∧
  join (chr newline) (split newline file) = file ∧
  script posix_linesep dir file
  = Some (file, ["Fixed all file paths in tasks.md"]).
Proof.
  intros Hcr Hno. pose proof (read_text_no_cr file Hcr) as Hread.
  split_and!; [done | apply join_split |].
  rewrite script_unmodified; [| by rewrite Hread].
  by rewrite Hread, write_text_posix.
Qed.

Lemma unmodified_file_round_trip_witness :
  mem carriage_return lf_file = false ∧
  script posix_linesep ["007-bar.md"] lf_file
  = Some (lf_file, ["Fixed all file paths in tasks.md"]).
Proof.
  split; [reflexivity |].
  refine (proj2 (proj2 (unmodified_file_round_trip ["007-bar.md"] lf_file
                          eq_refl _))).
  intros line pre N Hin%list_elem_of_In.
  destruct Hin as [<-|[<-|[<-|[]]]];
    apply (references_check (λ N, task_files ["007-bar.md"] !! N = None));
    vm_compute; repeat constructor.
Defined.

(** *** Further properties of the repairer *)

Lemma filter_Permutation_bool {A : Type} (f : A → bool) (l l' : list A) :
  l ≡ₚ l' → List.filter f l ≡ₚ List.filter f l'.
Proof.
  induction 1 as [|x l l' _ IH|x y l|l l' l'' _ IH1 _ IH2]; simpl.
  - done.
  - destruct (f x); [by constructor | done].
  - destruct (f x), (f y); try done. apply perm_swap.
  - by etrans.
Qed.

Lemma sorted_glob_Permutation (dir dir' : list string) :
  dir ≡ₚ dir' → sorted (glob dir) = sorted (glob dir').
Proof.
  intros Hp. apply (StronglySorted_unique String.le);
    [apply sorted_glob_sorted .. |].
  unfold sorted, glob. rewrite !merge_sort_Permutation.
  by apply Permutation_map, filter_Permutation_bool.
Qed.

(** X1: the mapping does not depend on the order in which the operating
    system lists the directory [tasks/]: two listings of the same
    entries give the same [task_files]. *)
Theorem task_files_listing_order (dir dir' : list string) :
  dir ≡ₚ dir' → task_files dir = task_files dir'.
Proof.
  intros Hp. unfold task_files. by rewrite (sorted_glob_Permutation _ _ Hp).
Qed.

Lemma task_files_listing_order_witness :
  task_files ["012-x.md"; "007-bar.md"; "007-add.md"]
  = task_files ["007-add.md"; "012-x.md"; "007-bar.md"].
Proof.
  apply task_files_listing_order.
  symmetry.
  apply (Permutation_cons_append ["012-x.md"; "007-bar.md"] "007-add.md").
Defined.

(** X2: a task number is a key of the mapping exactly when the directory
    holds a name made of that number, a hyphen, and an end in [.md]; the
    other entries (no leading digits, no hyphen after them, another
    extension) add no key. *)
Theorem task_files_keys (dir : list string) (N : string) :
  Forall entry_name dir →
  is_Some (task_files dir !! N) ↔ ∃ name, name ∈ dir ∧ task_file name N.
Proof.
  intros Hdir. split.
  - intros [path Hp]. apply task_files_Some in Hp as (name & _ & ? & ? & _);
      [| done]. by exists name.
  - intros (name & Hin & Ht).
    destruct (task_files dir !! N) eqn:E; [done |].
    by destruct (proj1 (task_files_None dir N Hdir) E name).
Qed.

Lemma task_files_keys_witness :
  is_Some (task_files ["12.md"; "7-a.txt"; "x-1.md"; "007-bar.md"] !! "007") ↔
  ∃ name, name ∈ ["12.md"; "7-a.txt"; "x-1.md"; "007-bar.md"] ∧
          task_file name "007".
Proof. apply task_files_keys. repeat constructor. Defined.

(** A check, by evaluation, that a name is no task file. *)
Lemma not_task_file_check (name : string) :
  entry_name name →
  fnmatch name = false ∨ key ("tasks/" +:+ name) = None →
  ∀ N, ¬ task_file name N.
Proof.
  intros Hn H N [Hf Hk]%key_task_file; [| done]. destruct H; congruence.
Qed.

(** X3: entries that are not task files are ignored: adding them to the
    directory leaves the whole mapping as it was. *)
Theorem task_files_ignores_other_entries (other dir : list string) :
  Forall entry_name (other ++ dir) →
  (∀ name N, name ∈ other → ¬ task_file name N) →
  task_files (other ++ dir) = task_files dir.
Proof.
  intros Hall Hother. apply Forall_app in Hall as Hsplit.
  destruct Hsplit as [_ Hdir]. apply map_eq. intros N.
  destruct (task_files dir !! N) as [path|] eqn:E.
  - apply task_files_Some in E as (name & -> & Hin & Ht & Hmax); [| done].
    apply task_files_Some; [done |]. exists name.
    split_and!; [done | set_solver | done |].
    intros name' [Hin'|Hin']%elem_of_app Ht'; [| by apply Hmax].
    by destruct (Hother name' N).
  - apply task_files_None; [done |].
    intros name [Hin|Hin]%elem_of_app; [by apply Hother |].
    by apply (proj1 (task_files_None dir N Hdir) E).
Qed.

Lemma task_files_ignores_other_entries_witness :
  task_files (["README.md"; "12.md"] ++ ["007-bar.md"])
  = task_files ["007-bar.md"].
Proof.
  apply task_files_ignores_other_entries.
  - repeat constructor.
  - intros name N Hin%list_elem_of_In.
    destruct Hin as [<-|[<-|[]]]; apply not_task_file_check;
      first [ reflexivity | by left | by right ].
Defined.

Lemma repaired_eq (N path : string) :
  "[#" +:+ N +:+ "](" +:+ ("process/" +:+ path) +:+ ")" = repaired N path.
Proof. unfold repaired. by rewrite !app_assoc. Qed.

(** X4: when no entry of [tasks/] holds a backslash in its name, the
    loop gives a line back for every line, and changes it only to point
    references at a task file that exists: when the line given back
    differs from the line, the leftmost reference of the line carries a
    number [N], the directory holds a task file numbered [N], the
    greatest in sorted order, and the line was rewritten to that file and
    to nothing else. *)
Theorem changes_point_to_task_files (dir : list string) (line : string) :
  Forall entry_name dir →
  (∀ name, name ∈ dir → mem backslash name = false) →
  ∃ out,
    fix_line (task_files dir) line = Some out ∧
    (out ≠ line →
     ∃ pre N name,
       leftmost_reference line pre N ∧ name ∈ dir ∧ task_file name N ∧
       (∀ name', name' ∈ dir → task_file name' N → String.le name' name) ∧
       rewritten N (repaired N ("tasks/" +:+ name)) line out).
Proof.
  intros Hdir Hbs. unfold fix_line.
  destruct (search ref_pattern line) as [[gs rest]|] eqn:Hs;
    [| by exists line].
  destruct (search_reference _ _ _ Hs) as (pre & N & -> & Hl).
  change (group 1 ([N], rest)) with N.
  destruct (task_files dir !! N) as [path|] eqn:Hp; [| by exists line].
  apply task_files_Some in Hp as (name & -> & Hin & Ht & Hmax); [| done].
  destruct (Hl) as [(X & post & _ & HN0 & HN & _) _].
  unfold sub. rewrite expand_template_repaired; [| done |].
  - eexists. split; [done |]. intros _. exists pre, N, name.
    split_and!; [done | done | done | done |]. by apply sub_go_rewritten.
  - rewrite mem_app. simpl. apply (Hbs name Hin).
Qed.

Lemma changes_point_to_task_files_witness :
  ∃ out,
    fix_line (task_files ["007-bar.md"]) example_line = Some out ∧
    (out ≠ example_line →
     ∃ pre N name,
       leftmost_reference example_line pre N ∧ name ∈ ["007-bar.md"] ∧
       task_file name N ∧
       (∀ name', name' ∈ ["007-bar.md"] → task_file name' N →
                 String.le name' name) ∧
       rewritten N (repaired N ("tasks/" +:+ name)) example_line out).
Proof.
  apply changes_point_to_task_files.
  - repeat constructor.
  - by intros name ->%list_elem_of_singleton.
Defined.

(** *** Lines with one reference *)

Lemma no_reference_start_leftmost (pre N X post : string) :
  no_reference_start pre → well_formed N X →
  leftmost_reference (pre +:+ reference N X +:+ post) pre N.
Proof.
  intros Hpre Hwf. split; [by exists X, post |].
  intros pre' N' (X' & post' & E & _).
  destruct (decide (String.length pre' < String.length pre)) as [Hlt|]; [| lia].
  rewrite !reference_app in E. symmetry in E.
  apply app_eq_le in E as (e & -> & E); [| lia].
  destruct e as [|c [|d e]].
  - rewrite app_nil_r in Hlt. lia.
  - discriminate E.
  - injection E as <- <- _. by destruct (Hpre pre' e).
Qed.

Lemma no_reference_start_no_reference (post N : string) :
  no_reference_start post → ∀ pre, ¬ reference_at post pre N.
Proof.
  intros Hpost pre (X & post' & E & _). rewrite reference_app in E.
  by destruct (Hpost pre (N +:+ "](process/tasks/" +:+ X +:+ ".md)" +:+ post')).
Qed.

(** X5: repairing is idempotent on a line with one reference: when the
    text before and the text after the reference hold no [[#], and the
    mapped path holds neither a closing parenthesis nor a backslash, the
    loop rewrites the link to [process/<mapped path>], and running it
    again on the repaired line gives the repaired line back. *)
Theorem repair_is_idempotent (dir : list string) (pre N X post path : string) :
  Forall entry_name dir → well_formed N X →
  no_reference_start pre → no_reference_start post →
  task_files dir !! N = Some path →
  mem ")" path = false → mem backslash path = false →
  fix_line (task_files dir) (pre +:+ reference N X +:+ post)
  = Some (pre +:+ repaired N path +:+ post) ∧
  fix_line (task_files dir) (pre +:+ repaired N path +:+ post)
  = Some (pre +:+ repaired N path +:+ post).
Proof.
  intros Hdir Hwf Hpre Hpost Hp Hparen Hback.
  pose proof (no_reference_start_no_reference post N Hpost) as Hno.
  split.
  - apply fix_line_single; [done | | done | done | done].
    by apply no_reference_start_leftmost.
  - pose proof Hp as Hp'.
    apply task_files_Some in Hp' as (name & -> & _ & (tail & -> & HN0 & HN) & _);
      [| done].
    assert (repaired N ("tasks/" +:+ N +:+ "-" +:+ tail +:+ ".md")
            = reference N (N +:+ "-" +:+ tail)) as Erep.
    { unfold repaired, reference. by rewrite !app_assoc. }
    assert (well_formed N (N +:+ "-" +:+ tail)) as Hwf'.
    { split_and!; [done | done | by destruct N |].
      rewrite (all_neq_mem ")"). apply negb_true_iff.
      change ("tasks/" +:+ N +:+ "-" +:+ tail +:+ ".md")
        with ("tasks/" +:+ (N +:+ "-" +:+ tail +:+ ".md")) in Hparen.
      rewrite mem_app in Hparen. apply orb_false_elim in Hparen as [_ Hparen].
      assert (N +:+ "-" +:+ tail +:+ ".md" = (N +:+ "-" +:+ tail) +:+ ".md")
        as E by (by rewrite !app_assoc).
      rewrite E, mem_app in Hparen. by apply orb_false_elim in Hparen as [? _]. }
    rewrite Erep at 1.
    rewrite (fix_line_single _ pre N (N +:+ "-" +:+ tail) post _ Hwf'
               (no_reference_start_leftmost _ _ _ _ Hpre Hwf') Hno Hp Hback).
    done.
Qed.

Lemma repair_is_idempotent_witness :
  fix_line (task_files ["007-bar.md"])
    ("- [ ] " +:+ reference "007" "foo" +:+ " Some title")
  = Some ("- [ ] " +:+ repaired "007" "tasks/007-bar.md" +:+ " Some title") ∧
  fix_line (task_files ["007-bar.md"])
    ("- [ ] " +:+ repaired "007" "tasks/007-bar.md" +:+ " Some title")
  = Some ("- [ ] " +:+ repaired "007" "tasks/007-bar.md" +:+ " Some title").
Proof.
  apply repair_is_idempotent.
  - repeat constructor.
  - done.
  - intros a b E. do 6 (destruct a as [|? a]; [discriminate E |]).
    destruct a; discriminate E.
  - intros a b E. do 11 (destruct a as [|? a]; [discriminate E |]).
    destruct a; discriminate E.
  - by vm_compute.
  - done.
  - done.
Defined.

(** *** The lines of the file written *)

Lemma sub_go_mem (c : ascii) (p : pattern) (repl s : string) (skip : nat) :
  mem c repl = false → mem c s = false →
  mem c (sub_go p repl skip s) = false.
Proof.
  intros Hr. revert skip. induction s as [|ch s IH]; intros skip Hs.
  - simpl. destruct skip; [| done]. by destruct (match_here p "").
  - change (Ascii.eqb c ch || mem c s = false) in Hs.
    apply orb_false_elim in Hs as [Hch Hs]. simpl.
    destruct skip as [|k]; [| by apply IH].
    destruct (match_here p (String ch s)) as [[gs rest]|].
    + destruct (_ - _); rewrite mem_app, Hr; simpl;
        rewrite ?Hch; by apply IH.
    + simpl. rewrite Hch. by apply IH.
Qed.

Lemma split_elements (sep : ascii) (s : string) :
  Forall (λ l, mem sep l = false) (split sep s).
Proof.
  induction s as [|c s IH]; simpl; [by repeat constructor |].
  destruct (Ascii.eqb c sep) eqn:E; [by constructor |].
  assert (mem sep (chr c) = false) as Hc.
  { simpl. by rewrite (Ascii.eqb_sym sep c), E. }
  destruct (split sep s) as [|l ls]; [by constructor |].
  apply Forall_cons in IH as [Hl Hls]. constructor; [| done].
  change (String c l) with (chr c +:+ l). by rewrite mem_app, Hc, Hl.
Qed.

(** The values of the mapping are paths [tasks/<entry>]. *)
Lemma task_files_value (dir : list string) (N path : string) :
  task_files dir !! N = Some path →
  ∃ name, path = "tasks/" +:+ name ∧ name ∈ dir.
Proof.
  unfold task_files. rewrite foldl_add_task_file.
  intros [(l1 & l2 & E & _ & _)|[_ ?]]; [| done].
  assert (path ∈ sorted (glob dir)) as Hin by (rewrite E; set_solver).
  apply elem_of_sorted_glob in Hin as (name & -> & ? & _). by exists name.
Qed.

Lemma fix_line_newline (dir : list string) (line out : string) :
  (∀ name, name ∈ dir → mem newline name = false) →
  mem newline line = false → fix_line (task_files dir) line = Some out →
  mem newline out = false.
Proof.
  intros Hdir Hline Hfix. unfold fix_line in Hfix.
  destruct (search ref_pattern line) as [[gs rest]|] eqn:Hs; [| congruence].
  destruct (search_reference _ _ _ Hs) as (pre & N & -> & Hl).
  change (group 1 ([N], rest)) with N in Hfix.
  destruct (task_files dir !! N) as [path|] eqn:Hp; [| congruence].
  destruct (task_files_value _ _ _ Hp) as (name & -> & Hin).
  rewrite repaired_eq in Hfix. unfold sub in Hfix.
  destruct (expand_template _) as [lit|] eqn:He; [| done].
  unfold expand_template in He.
  destruct (mem backslash _); [done |]. injection He as <-.
  injection Hfix as <-. apply sub_go_mem; [| done].
  destruct Hl as [(X & post & _ & _ & HN & _) _].
  assert (mem newline N = false) as HNn.
  { clear -HN. induction N as [|a N IH]; [done |].
    change (is_digit a && all is_digit N = true) in HN.
    apply andb_prop in HN as [Ha HN].
    change (Ascii.eqb newline a || mem newline N = false).
    rewrite (IH HN), orb_false_r. apply eqb_false. by intros <-. }
  unfold repaired. rewrite !mem_app, HNn. simpl. by rewrite (Hdir name Hin).
Qed.

(** Without a backslash in the names of the directory, the loop gives a
    line back for every line. *)
Lemma fix_line_is_Some (dir : list string) (line : string) :
  (∀ name, name ∈ dir → mem backslash name = false) →
  is_Some (fix_line (task_files dir) line).
Proof.
  intros Hdir. unfold fix_line.
  destruct (search ref_pattern line) as [[gs rest]|] eqn:Hs; [| done].
  destruct (search_reference _ _ _ Hs) as (pre & N & -> & Hl).
  change (group 1 ([N], rest)) with N.
  destruct (task_files dir !! N) as [path|] eqn:Hp; [| done].
  destruct (task_files_value _ _ _ Hp) as (name & -> & Hin).
  destruct Hl as [(X & post & _ & _ & HN & _) _].
  unfold sub. rewrite expand_template_repaired; [done | done |].
  rewrite mem_app. simpl. by rewrite (Hdir name Hin).
Qed.

(** The lines of the text written are the lines the loop gave back. *)
Lemma written_lines (dir : list string) (content written : string)
    (printed : list string) :
  (∀ name, name ∈ dir → mem newline name = false) →
  main dir content = Some (written, printed) →
  length (split newline written) = length (split newline content) ∧
  ∀ i line,
    split newline content !! i = Some line →
    ∃ line', fix_line (task_files dir) line = Some line' ∧
             split newline written !! i = Some line'.
Proof.
  intros Hdir (fixed & Hfixed & -> & _)%main_fixed_lines.
  pose proof (proj1 (mapM_Some _ _ _) Hfixed) as H2.
  assert (split newline (join (chr newline) fixed) = fixed) as ->.
  { apply split_join.
    - intros ->. apply Forall2_nil_inv_r in H2.
      by apply (split_nonempty newline content).
    - pose proof (split_elements newline content) as Hlines.
      clear Hfixed. revert Hlines. induction H2 as [|line out ls os Hfix _ IH];
        intros Hlines; [done |].
      apply Forall_cons in Hlines as [Hline Hlines].
      constructor; [| by apply IH].
      by apply (fix_line_newline dir line). }
  split; [symmetry; by apply (Forall2_length _ _ _ H2) |].
  intros i line Hi. by apply (fixed_lines_lookup _ _ _ _ _ Hfixed).
Qed.

(** X6: repair is line by line. When no entry of [tasks/] holds a
    newline or a backslash in its name, the script writes a text that
    has as many lines as the text read, and whose line [i] is the repair
    of line [i] of the text read: no line is added, dropped, merged or
    moved. *)
Theorem written_line_by_line (dir : list string) (content : string) :
  (∀ name, name ∈ dir → mem newline name = false) →
  (∀ name, name ∈ dir → mem backslash name = false) →
  ∃ written,
    main dir content = Some (written, ["Fixed all file paths in tasks.md"]) ∧
    length (split newline written) = length (split newline content) ∧
    ∀ i line,
      split newline content !! i = Some line →
      ∃ line', fix_line (task_files dir) line = Some line' ∧
               split newline written !! i = Some line'.
Proof.
  intros Hnl Hbs.
  assert (is_Some (fixed_lines (task_files dir) (split newline content)))
    as [fixed Hfixed].
  { apply mapM_is_Some, Forall_forall. intros line _.
    by apply fix_line_is_Some. }
  assert (main dir content
          = Some (join (chr newline) fixed,
                  ["Fixed all file paths in tasks.md"])) as Hmain.
  { unfold main. by rewrite Hfixed. }
  exists (join (chr newline) fixed). split; [done |].
  exact (written_lines dir content _ _ Hnl Hmain).
Qed.

Lemma written_line_by_line_witness :
  ∃ written,
    main ["007-bar.md"]
      ("# Tasks" +:+ chr newline +:+
       "- [#007](process/tasks/foo.md) Some title" +:+ chr newline)
    = Some (written, ["Fixed all file paths in tasks.md"]) ∧
    length (split newline written)
    = length (split newline
                ("# Tasks" +:+ chr newline +:+
                 "- [#007](process/tasks/foo.md) Some title" +:+ chr newline)) ∧
    ∀ i line,
      split newline
        ("# Tasks" +:+ chr newline +:+
         "- [#007](process/tasks/foo.md) Some title" +:+ chr newline) !! i
      = Some line →
      ∃ line', fix_line (task_files ["007-bar.md"]) line = Some line' ∧
               split newline written !! i = Some line'.
Proof.
  apply written_line_by_line.
  - by intros name ->%list_elem_of_singleton.
  - by intros name ->%list_elem_of_singleton.
Defined.

(** X15: the run completes. When no entry of [tasks/] holds a backslash
    in its name, every replacement string stands for itself, no call of
    [re.sub] fails, and the script writes a text and prints its one
    message, whatever [tasks.md] holds. *)
Theorem run_completes (dir : list string) (content : string) :
  (∀ name, name ∈ dir → mem backslash name = false) →
  ∃ written,
    main dir content = Some (written, ["Fixed all file paths in tasks.md"]).
Proof.
  intros Hdir.
  assert (∀ line, is_Some (fix_line (task_files dir) line)) as Hline.
  { intros line. unfold fix_line.
    destruct (search ref_pattern line) as [[gs rest]|] eqn:Hs; [| done].
    destruct (search_reference _ _ _ Hs) as (pre & N & -> & Hl).
    change (group 1 ([N], rest)) with N.
    destruct (task_files dir !! N) as [path|] eqn:Hp; [| done].
    destruct (task_files_value _ _ _ Hp) as (name & -> & Hin).
    destruct Hl as [(X & post & _ & _ & HN & _) _].
    unfold sub. rewrite expand_template_repaired; [done | done |].
    rewrite mem_app. simpl. by rewrite (Hdir name Hin). }
  unfold main, fixed_lines.
  destruct (mapM (fix_line (task_files dir)) (split newline content))
    as [fixed|] eqn:E; [by exists (join (chr newline) fixed) |].
  assert (is_Some (mapM (fix_line (task_files dir)) (split newline content)))
    as [? H]; [| congruence].
  apply mapM_is_Some, Forall_forall. intros line _. apply Hline.
Qed.

Lemma run_completes_witness :
  (∀ name, name ∈ ["007-add.md"] → mem backslash name = false) ∧
  ∃ written,
    main ["007-add.md"] example_line
    = Some (written, ["Fixed all file paths in tasks.md"]).
Proof.
  assert (∀ name, name ∈ ["007-add.md"] → mem backslash name = false) as H.
  { by intros name ->%list_elem_of_singleton. }
  split; [exact H |].
  exact (run_completes ["007-add.md"] example_line H).
Defined.

End FixTasksFacts.

(** ** The fixture *)

Module CalculatorFacts.
Import Calculator.

Lemma subtract_add (self : Calculator) (a b : Z) :
  subtract self (add self a b) b = a.
Proof. unfold add, subtract. lia. Qed.

Lemma add_comm (self : Calculator) (a b : Z) : add self a b = add self b a.
Proof. unfold add. lia. Qed.

(** C9: for all integers [a] and [b], negative and zero included, [add]
    returns the sum [a + b] and [subtract] the difference [a - b]; so
    [add(2, 3) = 5], [subtract(2, 3) = -1] and [add(0, 0) = 0]. *)
Theorem add_subtract_arithmetic (self : Calculator) (a b : Z) :
  add self a b = (a + b)%Z ∧ subtract self a b = (a - b)%Z ∧
  add self 2 3 = 5%Z ∧ subtract self 2 3 = (-1)%Z ∧ add self 0 0 = 0%Z ∧
  add self (-4) (-6) = (-10)%Z ∧ subtract self (-4) 0 = (-4)%Z.
Proof. by split_and!. Qed.


(** X16: [add] and [subtract] undo each other, in both orders and for
    all integers; subtracting is adding the opposite, and swapping the
    operands of [subtract] negates the result. *)
Theorem add_subtract_inverse (self : Calculator) (a b : Z) :
  subtract self (add self a b) b = a ∧
  add self (subtract self a b) b = a ∧
  subtract self a b = add self a (- b) ∧
  subtract self b a = (- subtract self a b)%Z.
Proof. unfold add, subtract. lia. Qed.

End CalculatorFacts.

(** ** The rule-file generator *)

Module RuleFilesFacts.
Import Str StrFacts RuleFiles.

Lemma main_disk (st : state) :
  disk (main st)
  = {| dirs := if path_exists (disk st) rules_dir then dirs (disk st)
               else dirs (makedirs (disk st) rules_dir);
       files := foldl (λ m r, <[rule_path r := rule_file r]> m)
                  (files (disk st)) rules |}.
Proof. unfold main. by destruct (path_exists (disk st) rules_dir). Qed.

Lemma main_stdout (st : state) :
  stdout (main st)
  = stdout st ++ map (λ r, "Created " +:+ rule_path r) rules
    ++ ["All rule files created successfully with proper frontmatter."].
Proof.
  unfold main. destruct (path_exists (disk st) rules_dir); simpl;
    by rewrite <- !(assoc_L (++)).
Qed.

(** After a run of inserts, a key holds the value of the last insert on
    it, or what it held before. *)
Lemma lookup_foldl_insert {A : Type} (k v : A → string) (rs : list A)
    (p : string) (m0 m : gmap string string) (found : option string) :
  m !! p = match found with Some t => Some t | None => m0 !! p end →
  foldl (λ m r, <[k r := v r]> m) m rs !! p
  = match foldl (λ found r, if String.eqb (k r) p then Some (v r)
                            else found) found rs with
    | Some t => Some t
    | None => m0 !! p
    end.
Proof.
  revert m found. induction rs as [|r rs IH]; intros m found Hm; [done |].
  simpl. apply IH. destruct (String.eqb_spec (k r) p) as [->|Hne].
  - by rewrite lookup_insert_eq.
  - by rewrite lookup_insert_ne.
Qed.

Lemma lookup_main (st : state) (p : string) :
  files (disk (main st)) !! p
  = match rule_text p with
    | Some text => Some text
    | None => files (disk st) !! p
    end.
Proof.
  rewrite main_disk. simpl.
  by apply (lookup_foldl_insert rule_path rule_file rules p
              (files (disk st)) (files (disk st)) None).
Qed.

Lemma rule_text_paths (p : string) :
  is_Some (rule_text p) ↔ p ∈ rule_paths.
Proof.
  unfold rule_text, rule_paths.
  assert (∀ rs found,
            is_Some (foldl (λ found r,
                       if String.eqb (rule_path r) p
                       then Some (rule_file r) else found) found rs)
            ↔ is_Some found ∨ p ∈ map rule_path rs) as H.
  { induction rs as [|r rs IH]; intros found; simpl.
    - split; [by left | intros [?|?%elem_of_nil]; done].
    - rewrite IH, elem_of_cons.
      destruct (String.eqb_spec (rule_path r) p) as [->|Hne].
      + split; [intros _; right; by left | by left].
      + split; [intros [?|?]; auto | intros [?|[?|?]]; auto; congruence]. }
  rewrite H. split; [intros [[? [=]]|?]; done | by right].
Qed.

(** What [create_rule_file] writes reads back as the name, the
    description and the body it was given. *)
Lemma parse_frontmatter (name description content : string) :
  mem newline name = false → mem newline description = false →
  parse_rule_file (frontmatter name description +:+ content)
  = Some (name, description, content).
Proof.
  intros Hn Hd. unfold parse_rule_file.
  assert (frontmatter name description +:+ content
          = "---" +:+ String newline
            (("name: " +:+ name) +:+ String newline
             (("description: " +:+ description) +:+ String newline
              ("globs:" +:+ String newline
               (("  - " +:+ dq +:+ "**/*" +:+ dq) +:+ String newline
                ("alwaysApply: false" +:+ String newline
                 ("---" +:+ String newline content))))))) as ->.
  { unfold frontmatter. by rewrite !app_assoc. }
  rewrite !split_app_sep; [| by rewrite ?mem_app, ?Hn, ?Hd ..].
  rewrite !String.eqb_refl, !strip_prefix_app. simpl andb. cbv iota.
  unfold nl. by rewrite join_split.
Qed.

Lemma dirs_main (st : state) :
  dirs (disk (main st))
  = if path_exists (disk st) rules_dir then dirs (disk st)
    else dirs (makedirs (disk st) rules_dir).
Proof. by rewrite main_disk. Qed.

Lemma rule_text_rules_dir : rule_text rules_dir = None.
Proof. by vm_compute. Qed.

(** After a run the output directory exists, so the next run does not
    call [os.makedirs]. *)
Lemma path_exists_main (st : state) :
  path_exists (disk (main st)) rules_dir = true.
Proof.
  unfold path_exists at 1.
  rewrite dirs_main, lookup_main, rule_text_rules_dir.
  destruct (path_exists (disk st) rules_dir) eqn:E; [exact E |].
  apply orb_true_intro. left. apply bool_decide_eq_true.
  unfold makedirs. simpl. set_solver.
Qed.

Lemma fs_eq (a b : fs) : dirs a = dirs b → files a = files b → a = b.
Proof. destruct a, b. simpl. by intros -> ->. Qed.

Lemma lookup_rule_file (st : state) (r : string * string * string * string) :
  rule_text (rule_path r) = Some (rule_file r) →
  files (disk (main st)) !! rule_path r = Some (rule_file r).
Proof. intros H. by rewrite lookup_main, H. Qed.

(** C4: a run of the generator writes exactly six files, at the six
    fixed [.mdc] paths under [.cursor/rules/], and leaves every other
    file as it was. Each of the six begins with a line [---], then the
    lines [name: …], [description: …], [globs:], a one-element list
    rendered as a dash and the pattern [**/*] in double quotes, and
    [alwaysApply: false], then a line [---], and the body starts on the
    very next line: it is not empty and its first line is not blank. *)
Theorem generator_writes_six_rule_files (st : state) :
  rule_paths
  = [".cursor/rules/minsky-workflow-orchestrator.mdc";
     ".cursor/rules/minsky-cli-usage.mdc";
     ".cursor/rules/minsky-session-management.mdc";
     ".cursor/rules/task-implementation-workflow.mdc";
     ".cursor/rules/task-status-protocol.mdc";
     ".cursor/rules/pr-preparation-workflow.mdc"] ∧
  NoDup rule_paths ∧
  (∀ p, p ∉ rule_paths → files (disk (main st)) !! p = files (disk st) !! p) ∧
  (∀ p, files (disk st) !! p = None →
        is_Some (files (disk (main st)) !! p) ↔ p ∈ rule_paths) ∧
  Forall (λ r, files (disk (main st)) !! rule_path r = Some (rule_file r) ∧
               parse_rule_file (rule_file r) = Some (r.1.1.2, r.1.2, r.2) ∧
               starts_with_text r.2) rules.
Proof.
  split_and!.
  - reflexivity.
  - apply (bool_decide_unpack _). by vm_compute.
  - intros p Hp. rewrite lookup_main.
    destruct (rule_text p) as [text|] eqn:E; [| done].
    destruct Hp. apply rule_text_paths. by rewrite E.
  - intros p Hp. rewrite lookup_main, <- rule_text_paths.
    destruct (rule_text p); [done |]. by rewrite Hp.
  - unfold rules. repeat constructor;
      first [ apply lookup_rule_file; by vm_compute
            | by apply parse_frontmatter
            | by vm_compute ].
Qed.

(** C5: a second run against the output of a first one is idempotent:
    it leaves the file system as the first run left it, writing to each
    of the six rule files the very text the first run wrote, and prints
    the same lines. *)
Theorem generator_is_idempotent (st : state) :
  disk (main (main st)) = disk (main st) ∧
  Forall (λ r, files (disk (main st)) !! rule_path r = Some (rule_file r) ∧
               files (disk (main (main st))) !! rule_path r
               = Some (rule_file r)) rules ∧
  ∃ printed, stdout (main st) = stdout st ++ printed ∧
             stdout (main (main st)) = stdout (main st) ++ printed.
Proof.
  split_and!.
  - apply fs_eq.
    + by rewrite (dirs_main (main st)), path_exists_main.
    + apply map_eq. intros p. rewrite (lookup_main (main st)), lookup_main.
      by destruct (rule_text p).
  - unfold rules. repeat constructor; apply lookup_rule_file; by vm_compute.
  - eexists. split; apply main_stdout.
Qed.

(** *** Further properties of the generator *)

(** X7: what [create_rule_file] writes can be read back. In a state
    where [open] succeeds on the path (its directory exists and the path
    is not itself a directory), for a name and a description without a
    newline, and any body, the file at the path then parses to that
    name, that description and that body; no other file and no directory
    is touched, and one line, [Created <path>], is printed. *)
Theorem create_rule_file_reads_back (st : state)
    (file_path name description content : string) :
  writable (disk st) file_path = true →
  mem newline name = false → mem newline description = false →
  (∃ text,
     files (disk (create_rule_file file_path name description content st))
       !! file_path = Some text ∧
     parse_rule_file text = Some (name, description, content)) ∧
  (∀ p, p ≠ file_path →
        files (disk (create_rule_file file_path name description content st))
          !! p = files (disk st) !! p) ∧
  dirs (disk (create_rule_file file_path name description content st))
  = dirs (disk st) ∧
  stdout (create_rule_file file_path name description content st)
  = stdout st ++ ["Created " +:+ file_path].
Proof.
  intros _ Hn Hd. split_and!; [| | done | done].
  - exists (frontmatter name description +:+ content). split.
    + apply lookup_insert_eq.
    + by apply parse_frontmatter.
  - intros p Hp. by apply lookup_insert_ne.
Qed.

Lemma create_rule_file_reads_back_witness :
  writable {| dirs := {["rules"]}; files := ∅ |} "rules/demo.mdc" = true ∧
  ∃ text,
    files (disk (create_rule_file "rules/demo.mdc" "Demo" "A demo rule"
                   ("# Demo" +:+ nl)
                   {| disk := {| dirs := {["rules"]}; files := ∅ |};
                      stdout := [] |}))
      !! "rules/demo.mdc" = Some text ∧
    parse_rule_file text = Some ("Demo", "A demo rule", "# Demo" +:+ nl).
Proof.
  assert (writable {| dirs := {["rules"]}; files := ∅ |} "rules/demo.mdc"
          = true) as H.
  { unfold writable. apply andb_true_intro. split.
    - apply andb_true_intro. split; [reflexivity |].
      apply orb_true_intro. right. apply bool_decide_eq_true.
      change (dirname "rules/demo.mdc") with "rules". simpl. set_solver.
    - apply negb_true_iff, bool_decide_eq_false. simpl.
      intros Hin%elem_of_singleton. discriminate Hin. }
  split; [exact H |].
  exact (proj1 (create_rule_file_reads_back
                  {| disk := {| dirs := {["rules"]}; files := ∅ |};
                     stdout := [] |}
                  "rules/demo.mdc" "Demo" "A demo rule" ("# Demo" +:+ nl)
                  H eq_refl eq_refl)).
Defined.

(** X8: a rule file is overwritten, never merged: after two calls on the
    same path the file system is what the second call alone would have
    left, whatever the first call wrote. *)
Theorem create_rule_file_overwrites (st : state)
    (file_path name description content name' description' content' : string) :
  disk (create_rule_file file_path name description content
          (create_rule_file file_path name' description' content' st))
  = disk (create_rule_file file_path name description content st).
Proof.
  apply fs_eq; [done |]. simpl. apply insert_insert_eq.
Qed.

(** X9: the generator only adds: every directory and every file present
    before a run is present after it. After a run the directory
    [.cursor/rules] exists; when it existed before, as a directory or as
    a file, no directory is created, and when it did not, [.cursor] and
    [.cursor/rules] are the directories created. *)
Theorem main_only_adds (st : state) :
  dirs (disk st) ⊆ dirs (disk (main st)) ∧
  (∀ p, is_Some (files (disk st) !! p) →
        is_Some (files (disk (main st)) !! p)) ∧
  path_exists (disk (main st)) rules_dir = true ∧
  (path_exists (disk st) rules_dir = true →
   dirs (disk (main st)) = dirs (disk st)) ∧
  (path_exists (disk st) rules_dir = false →
   dirs (disk (main st)) = dirs (disk st) ∪ {[".cursor"; ".cursor/rules"]}).
Proof.
  assert (dirs (makedirs (disk st) rules_dir)
          = dirs (disk st) ∪ {[".cursor"; ".cursor/rules"]}) as Hmk.
  { unfold makedirs, rules_dir. simpl.
    by rewrite (right_id_L ∅ (∪)), <- (assoc_L (∪)). }
  split_and!.
  - rewrite dirs_main. destruct (path_exists (disk st) rules_dir); [done |].
    rewrite Hmk. apply union_subseteq_l.
  - intros p Hp. rewrite lookup_main. by destruct (rule_text p).
  - apply path_exists_main.
  - intros E. by rewrite dirs_main, E.
  - intros E. by rewrite dirs_main, E.
Qed.

End RuleFilesFacts.

(** ** The tool-manifest comparator *)

Module CountToolsFacts.
Import Str StrFacts CountTools.

Lemma find_at_eq (sub s : string) (i : nat) :
  find_at sub s i
  = match strip_prefix sub s with
    | Some _ => Some i
    | None =>
        match s with
        | String _ s' => find_at sub s' (S i)
        | "" => None
        end
    end.
Proof. by destruct s. Qed.

(** [find_at] returns the first occurrence. *)
Lemma find_at_first (sub pre post : string) (i : nat) :
  (∀ pre' post', pre +:+ sub +:+ post = pre' +:+ sub +:+ post' →
                 String.length pre ≤ String.length pre') →
  find_at sub (pre +:+ sub +:+ post) i = Some (i + String.length pre).
Proof.
  revert i. induction pre as [|c pre IH]; intros i Hfirst; rewrite find_at_eq.
  - simpl. rewrite strip_prefix_app. f_equal. lia.
  - destruct (strip_prefix sub (String c pre +:+ sub +:+ post)) as [r|] eqn:E.
    + apply strip_prefix_Some in E.
      specialize (Hfirst "" r E). simpl in Hfirst. lia.
    + simpl. rewrite IH; [f_equal; lia |].
      intros pre' post' E'.
      specialize (Hfirst (String c pre') post'). simpl in Hfirst.
      rewrite E' in Hfirst. specialize (Hfirst eq_refl). lia.
Qed.

Lemma find_at_None (sub s : string) (i : nat) :
  find_at sub s i = None → ∀ pre post, s ≠ pre +:+ sub +:+ post.
Proof.
  revert i. induction s as [|c s IH]; intros i; rewrite find_at_eq.
  - destruct (strip_prefix sub "") eqn:E; [done |]. intros _ [|??] post H.
    + simpl in H. by rewrite H, strip_prefix_app in E.
    + done.
  - destruct (strip_prefix sub (String c s)) eqn:E; [done |].
    intros Hs [|c' pre] post H.
    + simpl in H. by rewrite H, strip_prefix_app in E.
    + injection H as -> H. by apply (IH _ Hs pre post).
Qed.

(** [s.find(sub)] is the offset of the first occurrence. *)
Lemma find_first (s sub pre : string) :
  first_at sub s pre → find s sub 0 = Z.of_nat (String.length pre).
Proof.
  intros [[post ->] Hfirst]. unfold find.
  change (0 <? 0)%Z with false. cbv iota.
  destruct (Z.ltb_spec (Z.of_nat (String.length (pre +:+ sub +:+ post))) 0);
    [lia |].
  change (Z.to_nat 0) with 0. change (drop 0 ?x) with x.
  by rewrite find_at_first.
Qed.

(** [s.find(sub, start)] looks in what follows the first [start]
    characters. *)
Lemma find_from (pre rest sub : string) :
  find (pre +:+ rest) sub (Z.of_nat (String.length pre))
  = match find_at sub rest (String.length pre) with
    | Some i => Z.of_nat i
    | None => (-1)%Z
    end.
Proof.
  unfold find.
  destruct (Z.ltb_spec (Z.of_nat (String.length pre)) 0); [lia |].
  destruct (Z.ltb_spec (Z.of_nat (String.length (pre +:+ rest)))
              (Z.of_nat (String.length pre))) as [Hlt|_].
  { rewrite length_app in Hlt. lia. }
  by rewrite Nat2Z.id, drop_app.
Qed.

(** [s[a:b]] between two offsets of [s]. *)
Lemma slice_middle (a b c : string) :
  slice (a +:+ b +:+ c) (Z.of_nat (String.length a))
    (Z.of_nat (String.length a + String.length b)) = b.
Proof.
  unfold slice, clamp. rewrite !length_app.
  destruct (Z.ltb_spec (Z.of_nat (String.length a)) 0); [lia |].
  destruct (Z.ltb_spec (Z.of_nat (String.length a + String.length b)) 0);
    [lia |].
  rewrite !Z.min_l by lia.
  replace (Z.to_nat (Z.of_nat (String.length a + String.length b)
                     - Z.of_nat (String.length a)))
    with (String.length b) by lia.
  by rewrite Nat2Z.id, drop_app, take_app.
Qed.

Lemma slice_from_app (a b : string) :
  slice_from (a +:+ b) (Z.of_nat (String.length a)) = b.
Proof.
  unfold slice_from. rewrite <- (app_nil_r b) at 1.
  rewrite length_app, slice_middle. done.
Qed.

(** *** The first source: the text between the fences *)

Lemma find_at_fence (s : string) (i : nat) :
  find_at fence_close ("```json" +:+ nl +:+ String "{" s) i
  = find_at fence_close (String "{" s) (8 + i).
Proof. reflexivity. Qed.

(** A block that opens on [fence_open] starts with a brace. *)
Lemma fenced_object (pre J post : string) :
  first_at fence_open (pre +:+ "```json" +:+ nl +:+ J +:+ fence_close +:+ post)
    pre →
  ∃ J', J = String "{" J'.
Proof.
  intros [[post' E] _]. apply app_inv_head in E.
  destruct J as [|c J']; [discriminate E |].
  simpl in E. injection E as -> _. by exists J'.
Qed.

Lemma cursor_json_str_fenced (pre J post : string) :
  first_at fence_open (pre +:+ "```json" +:+ nl +:+ J +:+ fence_close +:+ post)
    pre →
  first_at fence_close (J +:+ fence_close +:+ post) J →
  cursor_json_str (pre +:+ "```json" +:+ nl +:+ J +:+ fence_close +:+ post)
  = J.
Proof.
  intros Hopen [_ Hclose]. destruct (fenced_object _ _ _ Hopen) as [J' ->].
  unfold cursor_json_str. rewrite (find_first _ _ _ Hopen), find_from.
  change (("```json" +:+ nl +:+ String "{" J' +:+ fence_close +:+ post))
    with ("```json" +:+ nl +:+ String "{" (J' +:+ fence_close +:+ post)).
  rewrite find_at_fence.
  change (String "{" (J' +:+ fence_close +:+ post))
    with (String "{" J' +:+ fence_close +:+ post).
  rewrite find_at_first by done.
  assert (pre +:+ "```json" +:+ nl +:+ String "{" J' +:+ fence_close +:+ post
          = (pre +:+ "```json" +:+ nl) +:+ String "{" J'
            +:+ (fence_close +:+ post)) as ->.
  { by rewrite !app_assoc. }
  replace (Z.of_nat (String.length pre) + 8)%Z
    with (Z.of_nat (String.length (pre +:+ "```json" +:+ nl)))
    by (rewrite length_app; simpl; lia).
  replace (8 + String.length pre + String.length (String "{" J'))
    with (String.length (pre +:+ "```json" +:+ nl)
          + String.length (String "{" J'))
    by (rewrite length_app; simpl; lia).
  apply slice_middle.
Qed.

(** *** The second source: the text up to the closing brace *)

Lemma brace_depth_app (a b : string) :
  brace_depth (a +:+ b) = (brace_depth a + brace_depth b)%Z.
Proof. induction a as [|c a IH]; simpl; [done | rewrite IH; lia]. Qed.

(** With [c] braces open, the loop stops on the brace that brings the
    count back to 0. *)
Lemma scan_closing (w : string) (c : Z) (i : nat) (rest : string) :
  (1 ≤ c)%Z →
  (∀ a b, w = a +:+ b → b ≠ "" → (0 < c + brace_depth a)%Z) →
  (c + brace_depth w = 0)%Z →
  scan c i (w +:+ rest) = Some (i + String.length w - 1).
Proof.
  revert c i. induction w as [|ch w IH]; intros c i Hc Hpre Hsum.
  - simpl in Hsum. lia.
  - assert (∀ k, (c + brace_depth (String ch "") = k)%Z →
              ∀ a b, w = a +:+ b → b ≠ "" → (0 < k + brace_depth a)%Z)
      as Hpre'.
    { intros k <- a b -> Hb. specialize (Hpre (String ch a) b eq_refl Hb).
      change (String ch a) with (String ch "" +:+ a) in Hpre.
      rewrite brace_depth_app in Hpre. lia. }
    change (String ch w) with (String ch "" +:+ w) in Hsum.
    rewrite brace_depth_app in Hsum.
    simpl in Hsum, Hpre' |- *.
    destruct (Ascii.eqb ch "{") eqn:E1; [| destruct (Ascii.eqb ch "}") eqn:E2].
    + rewrite (IH (c + 1)%Z (S i)); [f_equal; lia | lia | | lia].
      apply Hpre'. lia.
    + destruct (Z.eqb_spec (c - 1) 0) as [E0|E0].
      * destruct w as [|ch' w]; [simpl; f_equal; lia |].
        specialize (Hpre (String ch "") (String ch' w) eq_refl).
        simpl in Hpre. rewrite E1, E2 in Hpre.
        specialize (Hpre ltac:(done)). lia.
      * rewrite (IH (c - 1)%Z (S i)); [f_equal; lia | lia | | lia].
        apply Hpre'. lia.
    + rewrite (IH c (S i)); [f_equal; lia | lia | | lia].
      apply Hpre'. lia.
Qed.

Lemma our_json_str_closing (pre J' post : string) :
  closes_at_end (String "{" J') →
  our_json_str (pre +:+ String "{" J' +:+ post)
    (Z.of_nat (String.length pre))
  = Some (String "{" J').
Proof.
  intros [Hsum Hpre]. unfold our_json_str. rewrite slice_from_app.
  change (scan 0 0 (String "{" J' +:+ post)) with (scan 1 1 (J' +:+ post)).
  simpl in Hsum. rewrite scan_closing; [| lia | | lia].
  - f_equal.
    replace (Z.of_nat (String.length pre)
             + Z.of_nat (1 + String.length J' - 1) + 1)%Z
      with (Z.of_nat (String.length pre + String.length (String "{" J')))
      by (simpl; lia).
    apply slice_middle.
  - intros a b -> Hb. specialize (Hpre (String "{" a) b eq_refl).
    simpl in Hpre. specialize (Hpre ltac:(done) Hb). lia.
Qed.

(** *** Checks by evaluation *)

Lemma find_at_Some_le (sub s : string) (i j : nat) :
  find_at sub s i = Some j →
  ∀ pre post, s = pre +:+ sub +:+ post → j ≤ i + String.length pre.
Proof.
  revert i. induction s as [|c s IH]; intros i; rewrite find_at_eq.
  - destruct (strip_prefix sub ""); [| done]. intros [= <-] pre post _. lia.
  - destruct (strip_prefix sub (String c s)) eqn:E.
    + intros [= <-] pre post _. lia.
    + intros Hs [|c' pre] post H.
      * simpl in H. by rewrite H, strip_prefix_app in E.
      * injection H as -> H. specialize (IH _ Hs pre post H). simpl. lia.
Qed.

Lemma first_at_check (sub s pre post : string) :
  s = pre +:+ sub +:+ post → find_at sub s 0 = Some (String.length pre) →
  first_at sub s pre.
Proof.
  intros E Hf. split; [by exists post |]. intros pre' post' E'.
  apply (find_at_Some_le _ _ _ _ Hf pre' post' E').
Qed.

Lemma prefixes_open_spec (s : string) (c : Z) :
  prefixes_open c s = true →
  ∀ a b, s = a +:+ b → a ≠ "" → b ≠ "" → (0 < c + brace_depth a)%Z.
Proof.
  revert c. induction s as [|ch s IH]; intros c Hc a b E Ha Hb.
  - by destruct a.
  - destruct a as [|ch' a]; [done |]. injection E as <- ->.
    change (String ch a) with (chr ch +:+ a). rewrite brace_depth_app.
    destruct a as [|ch' a].
    + destruct b as [|? b]; [done |]. simpl in Hc.
      apply andb_prop in Hc as [Hc%Z.ltb_lt _]. simpl in *. lia.
    + change (prefixes_open c (String ch (String ch' a +:+ b)))
        with ((0 <? c + brace_depth (chr ch))%Z
              && prefixes_open (c + brace_depth (chr ch))
                   (String ch' a +:+ b)) in Hc.
      apply andb_prop in Hc as [_ Hc].
      specialize (IH _ Hc (String ch' a) b eq_refl ltac:(done) Hb). lia.
Qed.

Lemma closes_at_end_check (J : string) :
  brace_depth J = 0%Z → prefixes_open 0 J = true → closes_at_end J.
Proof.
  intros Hd Hp. split; [done |]. intros a b E Ha Hb.
  by apply (prefixes_open_spec J 0 Hp a b).
Qed.

(** *** The claims about the comparator *)

Lemma main_readable (json_loads : string → exn + value)
    (cursor_content : string) (our_file : read_result) :
  main json_loads (ReadOk cursor_content) our_file
  = (report_cursor json_loads (cursor_json_str cursor_content)
     ++ report_ours json_loads our_file, Finished).
Proof. reflexivity. Qed.

(** Every failure past the first [open] is caught and reported for its
    source. *)
Lemma failures_reported (json_loads : string → exn + value) (e : exn)
    (s : string) :
  report_ours json_loads (ReadError e) = [FailedOurs e] ∧
  (json_loads s = inl e → report_cursor json_loads s = [FailedCursor e]).
Proof. split; [done |]. intros H. unfold report_cursor. by rewrite H. Qed.

(** C3 (the code misses it): when the first document cannot be read,
    nothing is caught: the script prints nothing, ends on the exception,
    and never looks at the second source. *)
Theorem unreadable_first_file_ends_the_run
    (json_loads : string → exn + value) (e : exn) (our_file : read_result) :
  main json_loads (ReadError e) our_file = ([], Uncaught e).
Proof. reflexivity. Qed.

Lemma report_cursor_catalog (json_loads : string → exn + value) (J : string)
    (items : list (string * value)) :
  json_loads J = inr (Dict items) →
  report_cursor json_loads J = catalog_report CursorTools items.
Proof. intros H. unfold report_cursor. by rewrite H. Qed.

Lemma report_ours_catalog (json_loads : string → exn + value)
    (pre J' post : string) (items : list (string * value)) :
  first_at object_open (pre +:+ (object_open +:+ J') +:+ post) pre →
  closes_at_end (object_open +:+ J') →
  json_loads (object_open +:+ J') = inr (Dict items) →
  report_ours json_loads (ReadOk (pre +:+ (object_open +:+ J') +:+ post))
  = catalog_report OurTools items.
Proof.
  intros Hfirst Hclose Hloads. unfold report_ours.
  rewrite (find_first _ _ _ Hfirst).
  destruct (Z.eqb_spec (Z.of_nat (String.length pre)) (-1)); [lia |].
  change (object_open +:+ J') with (String "{" (nl +:+ "  " +:+ dq +:+ J'))
    in Hclose, Hloads |- *.
  by rewrite our_json_str_closing, Hloads.
Qed.

(** C6, as stated, fails. The second document is not searched for a
    fence: a well-formed fenced object in it is not found unless it
    starts with a brace, a newline, two spaces and a double quote. And
    in the first document only the first block that opens on
    [fence_open] is read: a well-formed block after a malformed one is
    not reported. *)
Lemma fenced_object_counterexample :
  (fenced ("```json" +:+ nl +:+ "{}" +:+ fence_close) "{}" ∧
   loads_sample "{}" = inr (Dict []) ∧
   report_ours loads_sample (ReadOk ("```json" +:+ nl +:+ "{}" +:+ fence_close))
   = [NoJsonStart] ∧
   report_ours loads_sample (ReadOk ("```json" +:+ nl +:+ "{}" +:+ fence_close))
   ≠ catalog_report OurTools []) ∧
  (fenced ("```json" +:+ nl +:+ "{oops" +:+ fence_close +:+ nl +:+
           "```json" +:+ nl +:+ "{}" +:+ fence_close) "{}" ∧
   report_cursor loads_sample
     (cursor_json_str ("```json" +:+ nl +:+ "{oops" +:+ fence_close +:+ nl +:+
                       "```json" +:+ nl +:+ "{}" +:+ fence_close))
   ≠ catalog_report CursorTools []).
Proof.
  split_and!.
  - by exists "", "".
  - done.
  - by vm_compute.
  - intros H. vm_compute in H. discriminate H.
  - by exists ("```json" +:+ nl +:+ "{oops" +:+ fence_close +:+ nl), "".
  - intros H. vm_compute in H. discriminate H.
Qed.

(** C6 (amended): when, in the first document, the first occurrence of
    [fence_open] starts a block whose text [J], up to the next
    [fence_close], parses to an object with items [items], the script
    reports for it the number of keys and the first
    [min 10 (number of keys)] keys, whatever the second source holds; and
    when, in the second document, the text from the first occurrence of
    [object_open] to the brace that closes it, every brace character
    counted, parses to an object, the script reports the same for it,
    whatever the first document holds. *)
Theorem reports_catalog (json_loads : string → exn + value) :
  (∀ pre J post items our_file,
     first_at fence_open
       (pre +:+ "```json" +:+ nl +:+ J +:+ fence_close +:+ post) pre →
     first_at fence_close (J +:+ fence_close +:+ post) J →
     json_loads J = inr (Dict items) →
     main json_loads
       (ReadOk (pre +:+ "```json" +:+ nl +:+ J +:+ fence_close +:+ post))
       our_file
     = (catalog_report CursorTools items ++ report_ours json_loads our_file,
        Finished)) ∧
  (∀ pre J' post items cursor_content,
     first_at object_open (pre +:+ (object_open +:+ J') +:+ post) pre →
     closes_at_end (object_open +:+ J') →
     json_loads (object_open +:+ J') = inr (Dict items) →
     main json_loads (ReadOk cursor_content)
       (ReadOk (pre +:+ (object_open +:+ J') +:+ post))
     = (report_cursor json_loads (cursor_json_str cursor_content)
        ++ catalog_report OurTools items, Finished)) ∧
  (∀ count items,
     catalog_report count items
     = [count (length items); FirstTen (firstn 10 (map fst items))] ∧
     length (firstn 10 (map fst items)) = 10 `min` length items ∧
     ∃ others, map fst items = firstn 10 (map fst items) ++ others).
Proof.
  split_and!.
  - intros pre J post items our_file Hopen Hclose Hloads.
    rewrite main_readable, (cursor_json_str_fenced _ _ _ Hopen Hclose).
    by rewrite (report_cursor_catalog _ _ _ Hloads).
  - intros pre J' post items cursor_content Hfirst Hclose Hloads.
    rewrite main_readable.
    by rewrite (report_ours_catalog _ _ _ _ _ Hfirst Hclose Hloads).
  - intros count items. split_and!; [done | |].
    + by rewrite List.length_firstn, List.length_map.
    + exists (skipn 10 (map fst items)). by rewrite List.firstn_skipn.
Qed.

Lemma reports_catalog_witness :
  main loads_sample
    (ReadOk ("Tools:" +:+ nl +:+ "```json" +:+ nl +:+ "{}" +:+ fence_close
             +:+ nl +:+ "end"))
    (ReadError (OSError "No such file or directory: 'actual_output.txt'"))
  = ([CursorTools 0; FirstTen [];
      FailedOurs (OSError "No such file or directory: 'actual_output.txt'")],
     Finished) ∧
  main loads_sample (ReadOk "no block here")
    (ReadOk ("Output: " +:+ (object_open +:+ "read_file" +:+ dq +:+ ": {}"
                            +:+ nl +:+ "}") +:+ nl +:+ "done"))
  = ([FailedCursor
        (JSONDecodeError "Expecting property name enclosed in double quotes");
      OurTools 1; FirstTen ["read_file"]], Finished).
Proof.
  split.
  - refine (proj1 (reports_catalog loads_sample) ("Tools:" +:+ nl) "{}"
              (nl +:+ "end") [] _ _ _ _).
    + by apply (first_at_check _ _ _
                  ("}" +:+ fence_close +:+ nl +:+ "end")).
    + by apply (first_at_check _ _ _ (nl +:+ "end")).
    + done.
  - refine (proj1 (proj2 (reports_catalog loads_sample)) "Output: "
              ("read_file" +:+ dq +:+ ": {}" +:+ nl +:+ "}") (nl +:+ "done")
              [("read_file", Dict [])] "no block here" _ _ _).
    + by apply (first_at_check _ _ _
                  ("read_file" +:+ dq +:+ ": {}" +:+ nl +:+ "}" +:+ nl
                   +:+ "done")).
    + by apply closes_at_end_check.
    + done.
Defined.

(** Missing markers in the first document are not always reported: the
    slice taken all the same may parse. *)
Lemma missing_markers_may_parse :
  find "1234567{}X" fence_open 0 = (-1)%Z ∧
  main loads_sample (ReadOk "1234567{}X") (ReadError (OSError "missing"))
  = ([CursorTools 0; FirstTen []; FailedOurs (OSError "missing")], Finished).
Proof. by vm_compute. Qed.

(** *** Further properties of the comparator *)

Lemma find_at_Some (sub s : string) (i j : nat) :
  find_at sub s i = Some j →
  ∃ pre post, s = pre +:+ sub +:+ post ∧ j = i + String.length pre.
Proof.
  revert i. induction s as [|c s IH]; intros i; rewrite find_at_eq.
  - destruct (strip_prefix sub "") as [r|] eqn:E; [| done].
    intros [= <-]. apply strip_prefix_Some in E. exists "", r. simpl.
    split; [done | lia].
  - destruct (strip_prefix sub (String c s)) as [r|] eqn:E.
    + intros [= <-]. apply strip_prefix_Some in E. exists "", r. simpl.
      split; [done | lia].
    + intros (pre & post & -> & ->)%IH. exists (String c pre), post. simpl.
      split; [done | lia].
Qed.

Lemma find_at_absent (sub s : string) (i : nat) :
  (∀ pre post, s ≠ pre +:+ sub +:+ post) → find_at sub s i = None.
Proof.
  intros Hno. destruct (find_at sub s i) as [j|] eqn:E; [| done].
  apply find_at_Some in E as (pre & post & E & _). by destruct (Hno pre post).
Qed.

Lemma find_absent (s sub : string) :
  (∀ pre post, s ≠ pre +:+ sub +:+ post) → find s sub 0 = (-1)%Z.
Proof.
  intros Hno. unfold find. change (0 <? 0)%Z with false. cbv iota.
  destruct (Z.ltb_spec (Z.of_nat (String.length s)) 0); [lia |].
  change (Z.to_nat 0) with 0. change (drop 0 s) with s.
  by rewrite find_at_absent.
Qed.

Lemma find_present (s sub pre post : string) :
  s = pre +:+ sub +:+ post → (0 ≤ find s sub 0)%Z.
Proof.
  intros E. unfold find. change (0 <? 0)%Z with false. cbv iota.
  destruct (Z.ltb_spec (Z.of_nat (String.length s)) 0); [lia |].
  change (Z.to_nat 0) with 0. change (drop 0 s) with s.
  destruct (find_at sub s 0) as [j|] eqn:Hf; [lia |].
  by destruct (find_at_None _ _ _ Hf pre post).
Qed.

Lemma length_drop (k : nat) (s : string) :
  String.length (drop k s) = String.length s - k.
Proof.
  revert s. induction k as [|k IH]; intros [|c s]; simpl; try done.
Qed.

(** Looking from the last character on finds no text of two characters
    or more. *)
Lemma find_from_last (s sub : string) :
  1 < String.length sub → find s sub (-1) = (-1)%Z.
Proof.
  intros Hsub. unfold find. change (-1 <? 0)%Z with true. cbv iota.
  destruct (Z.ltb_spec (Z.of_nat (String.length s))
              (Z.max 0 (-1 + Z.of_nat (String.length s)))); [lia |].
  rewrite find_at_absent; [done |]. intros pre post E.
  apply (f_equal String.length) in E.
  rewrite length_drop, !length_app in E. lia.
Qed.

Lemma scan_never_closes (s : string) (c : Z) (i : nat) :
  (∀ a b, s = a +:+ b → a ≠ "" → (0 < c + brace_depth a)%Z) →
  scan c i s = None.
Proof.
  revert c i. induction s as [|ch s IH]; intros c i Hopen; [done |].
  pose proof (Hopen (chr ch) s eq_refl ltac:(done)) as H1.
  assert (∀ a b, s = a +:+ b → a ≠ "" →
            (0 < c + brace_depth (chr ch) + brace_depth a)%Z) as Hrest.
  { intros a b -> Ha. specialize (Hopen (String ch a) b eq_refl ltac:(done)).
    change (String ch a) with (chr ch +:+ a) in Hopen.
    rewrite brace_depth_app in Hopen. lia. }
  simpl in H1, Hrest |- *.
  destruct (Ascii.eqb ch "{"); [| destruct (Ascii.eqb ch "}")].
  - apply IH. intros a b E Ha. specialize (Hrest a b E Ha). lia.
  - destruct (Z.eqb_spec (c - 1) 0); [lia |].
    apply IH. intros a b E Ha. specialize (Hrest a b E Ha). lia.
  - apply IH. intros a b E Ha. specialize (Hrest a b E Ha). lia.
Qed.

(** Where the loop stops, the count has come back to 0 for the first
    time. *)
Lemma scan_Some (s : string) (c : Z) (i j : nat) :
  (1 ≤ c)%Z → scan c i s = Some j →
  ∃ w rest, s = w +:+ rest ∧ j + 1 = i + String.length w ∧
    (c + brace_depth w = 0)%Z ∧
    ∀ a b, w = a +:+ b → b ≠ "" → (0 < c + brace_depth a)%Z.
Proof.
  revert c i. induction s as [|ch s IH]; intros c i Hc; [done |].
  assert (∀ k, (1 ≤ k)%Z → (k = c + brace_depth (chr ch))%Z →
            scan k (S i) s = Some j →
            ∃ w rest, String ch s = w +:+ rest ∧
              j + 1 = i + String.length w ∧ (c + brace_depth w = 0)%Z ∧
              ∀ a b, w = a +:+ b → b ≠ "" → (0 < c + brace_depth a)%Z)
    as Hstep.
  { intros k Hk Ek (w & rest & -> & Hj & Hsum & Hpre)%IH; [| done].
    exists (String ch w), rest. split_and!; [done | simpl; lia | |].
    - change (String ch w) with (chr ch +:+ w). rewrite brace_depth_app. lia.
    - intros [|ch' a] b E Hb; [simpl; lia |]. injection E as <- ->.
      change (String ch a) with (chr ch +:+ a). rewrite brace_depth_app.
      specialize (Hpre a b eq_refl Hb). lia. }
  simpl in Hstep |- *.
  destruct (Ascii.eqb ch "{") eqn:E1; [| destruct (Ascii.eqb ch "}") eqn:E2].
  - apply Hstep; lia.
  - destruct (Z.eqb_spec (c - 1) 0) as [E0|E0]; [| apply Hstep; lia].
    intros [= <-]. exists (chr ch), s.
    split_and!; [done | simpl; lia | simpl; rewrite E1, E2; lia |].
    intros [|ch' [|? a]] b E Hb; [simpl; lia | | discriminate E].
    injection E as _ <-. done.
  - apply Hstep; lia.
Qed.

Lemma never_closes_spec (s : string) (c : Z) :
  never_closes c s = true →
  ∀ a b, s = a +:+ b → a ≠ "" → (0 < c + brace_depth a)%Z.
Proof.
  revert c. induction s as [|ch s IH]; intros c Hc a b E Ha.
  - by destruct a.
  - destruct a as [|ch' a]; [done |]. injection E as <- ->.
    change (never_closes c (String ch (a +:+ b)))
      with ((0 <? c + brace_depth (chr ch))%Z
            && never_closes (c + brace_depth (chr ch)) (a +:+ b)) in Hc.
    apply andb_prop in Hc as [H1%Z.ltb_lt H2].
    change (String ch a) with (chr ch +:+ a). rewrite brace_depth_app.
    destruct a as [|ch' a]; [simpl in *; lia |].
    specialize (IH _ H2 (String ch' a) b eq_refl ltac:(done)). lia.
Qed.


Lemma first_ten_report_cursor (json_loads : string → exn + value)
    (s : string) (ks : list string) :
  FirstTen ks ∈ report_cursor json_loads s → length ks ≤ 10.
Proof.
  unfold report_cursor.
  destruct (json_loads s) as [e|v]; [by intros [=]%list_elem_of_singleton |].
  destruct (len v) as [e|n]; [by intros [=]%list_elem_of_singleton |].
  destruct (keys v) as [e|l];
    intros [[=] | H%list_elem_of_singleton]%elem_of_cons; [done |].
  injection H as ->. rewrite List.length_firstn. lia.
Qed.

Lemma first_ten_report_ours (json_loads : string → exn + value)
    (our_file : read_result) (ks : list string) :
  FirstTen ks ∈ report_ours json_loads our_file → length ks ≤ 10.
Proof.
  unfold report_ours.
  destruct our_file as [c|e]; [| by intros [=]%list_elem_of_singleton].
  destruct (find c object_open 0 =? -1)%Z;
    [by intros [=]%list_elem_of_singleton |].
  destruct (our_json_str c _) as [s|]; [| by intros [=]%list_elem_of_singleton].
  destruct (json_loads s) as [e|v]; [by intros [=]%list_elem_of_singleton |].
  destruct (len v) as [e|n]; [by intros [=]%list_elem_of_singleton |].
  destruct (keys v) as [e|l];
    intros [[=] | H%list_elem_of_singleton]%elem_of_cons; [done |].
  injection H as ->. rewrite List.length_firstn. lia.
Qed.

(** X10: whatever the two documents hold and whatever [json.loads] makes
    of them, a list of keys the script prints has at most ten names. *)
Theorem prints_at_most_ten_keys (json_loads : string → exn + value)
    (cursor_file our_file : read_result) (ks : list string) :
  FirstTen ks ∈ (main json_loads cursor_file our_file).1 → length ks ≤ 10.
Proof.
  destruct cursor_file as [c|e]; simpl; [| by intros ?%elem_of_nil].
  intros [H|H]%elem_of_app.
  - by apply (first_ten_report_cursor json_loads (cursor_json_str c)).
  - by apply (first_ten_report_ours json_loads our_file).
Qed.

Lemma prints_at_most_ten_keys_witness :
  FirstTen ["read_file"]
    ∈ (main loads_sample (ReadOk "none") (ReadOk sample_object)).1 ∧
  length ["read_file"] ≤ 10.
Proof.
  assert (FirstTen ["read_file"]
            ∈ (main loads_sample (ReadOk "none") (ReadOk sample_object)).1)
    as H.
  { vm_compute. do 3 constructor. }
  split; [exact H |].
  exact (prints_at_most_ten_keys loads_sample (ReadOk "none")
           (ReadOk sample_object) ["read_file"] H).
Defined.

(** X11: the second document, once read, is reported as having no JSON
    start exactly when the text [object_open] (an opening brace, a
    newline, two spaces and a double quote) occurs nowhere in it. *)
Theorem no_json_start_iff (json_loads : string → exn + value)
    (our_content : string) :
  report_ours json_loads (ReadOk our_content) = [NoJsonStart]
  ↔ ∀ pre post, our_content ≠ pre +:+ object_open +:+ post.
Proof.
  unfold report_ours. split.
  - intros Hrep pre post E. pose proof (find_present _ _ _ _ E) as Hf.
    destruct (Z.eqb_spec (find our_content object_open 0) (-1)); [lia |].
    destruct (our_json_str our_content _) as [s|]; [| done].
    destruct (json_loads s) as [e|v]; [done |].
    destruct (len v) as [e|k]; [done |]. done.
  - intros Hno. by rewrite (find_absent _ _ Hno).
Qed.

(** X12: when the second document holds [object_open] and, from its first
    occurrence on, the braces never come back to balance, the loop leaves
    [our_json_str] unassigned and the script reports the [NameError] that
    [json.loads(our_json_str)] raises. *)
Theorem unbalanced_braces_reported (json_loads : string → exn + value)
    (pre tail : string) :
  first_at object_open (pre +:+ object_open +:+ tail) pre →
  (∀ a b, object_open +:+ tail = a +:+ b → a ≠ "" → (0 < brace_depth a)%Z) →
  report_ours json_loads (ReadOk (pre +:+ object_open +:+ tail))
  = [FailedOurs (NameError "name 'our_json_str' is not defined")].
Proof.
  intros Hfirst Hopen. unfold report_ours. rewrite (find_first _ _ _ Hfirst).
  destruct (Z.eqb_spec (Z.of_nat (String.length pre)) (-1)); [lia |].
  unfold our_json_str. rewrite slice_from_app.
  rewrite scan_never_closes; [done |].
  intros a b E Ha. specialize (Hopen a b E Ha). lia.
Qed.

Lemma unbalanced_braces_reported_witness :
  first_at object_open ("log " +:+ object_open +:+ "a" +:+ dq +:+ ": {") "log " ∧
  report_ours loads_sample
    (ReadOk ("log " +:+ object_open +:+ "a" +:+ dq +:+ ": {"))
  = [FailedOurs (NameError "name 'our_json_str' is not defined")].
Proof.
  assert (first_at object_open
            ("log " +:+ object_open +:+ "a" +:+ dq +:+ ": {") "log ") as H.
  { by apply (first_at_check _ _ _ ("a" +:+ dq +:+ ": {")). }
  split; [exact H |].
  apply (unbalanced_braces_reported loads_sample "log "
           ("a" +:+ dq +:+ ": {") H).
  by apply (never_closes_spec _ 0).
Defined.

(** X13: when the first document holds no opening marker, [find] gives
    -1 twice (the second search starts on the last character, where the
    closing marker cannot fit), and the text handed to [json.loads] is
    the document without its first seven characters and its last one. *)
Theorem missing_opening_marker (cursor_content : string) :
  (∀ pre post, cursor_content ≠ pre +:+ fence_open +:+ post) →
  cursor_json_str cursor_content = slice cursor_content 7 (-1).
Proof.
  intros Hno. unfold cursor_json_str. rewrite (find_absent _ _ Hno).
  rewrite find_from_last; [done |]. vm_compute. lia.
Qed.

Lemma missing_opening_marker_witness :
  (∀ pre post, "1234567{}X" ≠ pre +:+ fence_open +:+ post) ∧
  cursor_json_str "1234567{}X" = "{}".
Proof.
  assert (∀ pre post, "1234567{}X" ≠ pre +:+ fence_open +:+ post) as H.
  { by apply (find_at_None fence_open "1234567{}X" 0). }
  split; [exact H |].
  exact (missing_opening_marker "1234567{}X" H).
Defined.

(** X14: what the brace-counting loop extracts. With the first
    [object_open] of the second document at the end of [pre], the text
    handed to [json.loads] is [J] exactly when [J] is not empty, follows
    [pre] in the document, and ends at the brace that closes its first
    one, every brace character counted. *)
Theorem our_json_str_iff (doc pre J : string) :
  first_at object_open doc pre →
  our_json_str doc (Z.of_nat (String.length pre)) = Some J
  ↔ J ≠ "" ∧ (∃ post, doc = pre +:+ J +:+ post) ∧ closes_at_end J.
Proof.
  intros [[post' ->] _]. split.
  - unfold our_json_str. rewrite slice_from_app.
    change (object_open +:+ post')
      with (String "{" (nl +:+ "  " +:+ dq +:+ post')).
    set (r := nl +:+ "  " +:+ dq +:+ post').
    change (scan 0 0 (String "{" r)) with (scan 1 1 r).
    destruct (scan 1 1 r) as [i|] eqn:Hs; [| done].
    apply scan_Some in Hs as (w & rest & Er & Hi & Hsum & Hpre); [| lia].
    rewrite Er.
    change (String "{" (w +:+ rest)) with (String "{" w +:+ rest).
    replace (Z.of_nat (String.length pre) + Z.of_nat i + 1)%Z
      with (Z.of_nat (String.length pre + String.length (String "{" w)))
      by (simpl; lia).
    rewrite slice_middle. intros [= <-]. split_and!; [done | by exists rest | split].
    + change (String "{" w) with ("{" +:+ w). rewrite brace_depth_app.
      simpl. lia.
    + intros [|ch a] b E Ha Hb; [done |]. injection E as <- ->.
      change (String "{" a) with ("{" +:+ a). rewrite brace_depth_app.
      specialize (Hpre a b eq_refl Hb). simpl. lia.
  - intros (HJ & [post E] & Hclose). apply app_inv_head in E.
    destruct J as [|ch J']; [done |].
    injection E as <- E.
    rewrite <- (our_json_str_closing pre J' post Hclose).
    f_equal. f_equal. simpl. by rewrite E.
Qed.

Lemma our_json_str_iff_witness :
  first_at object_open ("out: " +:+ sample_object +:+ " {done}") "out: " ∧
  our_json_str ("out: " +:+ sample_object +:+ " {done}") 5
  = Some sample_object.
Proof.
  assert (first_at object_open ("out: " +:+ sample_object +:+ " {done}")
            "out: ") as H.
  { by apply (first_at_check _ _ _
                ("read_file" +:+ dq +:+ ": {}" +:+ nl +:+ "} {done}")). }
  split; [exact H |].
  apply (our_json_str_iff ("out: " +:+ sample_object +:+ " {done}") "out: "
           sample_object H).
  split_and!; [done | by exists " {done}" |].
  by apply closes_at_end_check.
Defined.

End CountToolsFacts.
